(** * SucklessBot: mod loading and event dispatch

    A shallow embedding of the host class [SucklessBot]: its start-up
    phase [__init] and its three event entry points [__onMessage],
    [__onDelete] and [__onUpdate], together with the JavaScript string
    primitives they call.

    JavaScript strings are sequences of UTF-16 code units; a code unit is
    an [N].  Mod objects live in a store and are handled through
    references, because [Array.prototype.includes] compares objects by
    identity. *)

From Stdlib Require Import NArith List Ascii String Lia.
From stdpp Require Import base option list gmap.

Local Open Scope N_scope.

(** ** JavaScript string primitives *)

Module JS.

Abbreviation JSString := (list N).

(** A string literal: every character of the Rocq string becomes one
    code unit. *)
Definition js (s : string) : JSString :=
  List.map N_of_ascii (list_ascii_of_string s).

Definition code_eqb (a b : N) : bool := N.eqb a b.

(** [String.prototype.startsWith(searchString)]. *)
Fixpoint startsWith (searchString s : JSString) : bool :=
  match searchString, s with
  | [], _ => true
  | _ :: _, [] => false
  | p :: ps, c :: cs => code_eqb p c && startsWith ps cs
  end.

(** [String.prototype.endsWith(searchString)]. *)
Definition endsWith (searchString s : JSString) : bool :=
  startsWith (rev searchString) (rev s).

(** [String.prototype.replace(pattern, replacement)] with a string
    pattern: only the first occurrence (scanning from the left) is
    replaced.  The replacement used by the host is the empty string,
    which holds no [$] pattern. *)
Fixpoint replace (pattern replacement s : JSString) : JSString :=
  if startsWith pattern s then replacement ++ List.skipn (List.length pattern) s
  else match s with
       | [] => []
       | c :: cs => c :: replace pattern replacement cs
       end.

(** The code units [String.prototype.trim] strips: ECMAScript's
    WhiteSpace and LineTerminator productions. *)
Definition isWhiteSpace (c : N) : bool :=
  ((9 <=? c) && (c <=? 13))
  || (c =? 32) || (c =? 160) || (c =? 5760)
  || ((8192 <=? c) && (c <=? 8202))
  || (c =? 8232) || (c =? 8233) || (c =? 8239) || (c =? 8287)
  || (c =? 12288) || (c =? 65279).

Fixpoint trimStart (s : JSString) : JSString :=
  match s with
  | [] => []
  | c :: cs => if isWhiteSpace c then trimStart cs else s
  end.

Definition trimEnd (s : JSString) : JSString := rev (trimStart (rev s)).

(** [String.prototype.trim()]. *)
Definition trim (s : JSString) : JSString := trimEnd (trimStart s).

(** The separator of the regular expression [/ +/]: U+0020 only. *)
Definition isSpace (c : N) : bool := c =? 32.

(** Splitting on the maximal runs of a separator class.  [in_run] tells
    that the previous code unit was a separator, [cur] is the piece
    being read.  A separator at either end leaves an empty piece there,
    and the empty string gives one empty piece, as [split] does for a
    regular expression that cannot match the empty string. *)
Fixpoint split_runs (sep : N -> bool) (in_run : bool) (cur s : JSString)
  : list JSString :=
  match s with
  | [] => [cur]
  | c :: cs =>
      if sep c then
        if in_run then split_runs sep true [] cs
        else cur :: split_runs sep true [] cs
      else split_runs sep false (cur ++ [c]) cs
  end.

(** [s.split(/ +/)]. *)
Definition split (s : JSString) : list JSString :=
  split_runs isSpace false [] s.

(** [Array.prototype.shift()]: the removed first element ([None] is
    [undefined], for an empty array) and the array that is left. *)
Definition shift {A} (a : list A) : option A * list A :=
  match a with
  | [] => (None, [])
  | x :: rest => (Some x, rest)
  end.

(** [Array.prototype.includes] and the guarded [push] the host uses
    twice: [if (!a.includes(x)) a.push(x)]. *)
Definition includes {A} (eqb : A -> A -> bool) (x : A) (a : list A) : bool :=
  List.existsb (eqb x) a.

Definition push_new {A} (eqb : A -> A -> bool) (a : list A) (x : A) : list A :=
  if includes eqb x a then a else a ++ [x].

End JS.
Import JS.

(** ** Mod descriptors, the object store and the host's state *)

(** A gateway intent flag, as in [Intents.FLAGS]. *)
Abbreviation Intent := N.

(** A mod object is handled through its reference. *)
Abbreviation ModRef := nat.

(** What can be thrown: any value.  The catch blocks of the host
    convert the value to a string and read its [stack] property, so a
    value is told by what these two give: an error object, or any other
    value on which both succeed, with its text and its stack; or
    [undefined] or [null], on which reading [stack] throws. *)
Inductive Exn :=
| ErrorObject (exn_text exn_stack : JSString)
| Undefined
| Null.

Definition TypeError (what : string) : Exn :=
  ErrorObject (js "TypeError: " ++ js what) [].

(** How a handler call ends. *)
Inductive Completion :=
| Normal
| Abrupt (e : Exn).

(** A platform message: the host reads [content] only. *)
Record Message := { content : JSString; message_id : nat }.

(** What a delete event carries: the message, or a partial of a message
    the client had not cached, whose [content] is [null]. *)
Record DeletedMessage := { deleted_content : option JSString; deleted_id : nat }.

(** The [intents] of the client options: an array of flags or a
    bitfield number. *)
Inductive IntentsValue :=
| IntentFlags (flags : list Intent)
| IntentBits (bits : N).

(** [Discord.ClientOptions], of which the host reads [intents]; [None]
    when the property is absent. *)
Record ClientOptions := { co_intents : option IntentsValue }.

(** How a computation of the host ends: with a value, or with a thrown
    exception that nothing caught. *)
Inductive Res (A : Type) :=
| Ok (a : A)
| Throw (e : Exn).
Arguments Ok {A} a.
Arguments Throw {A} e.

Section Model.

(** The state mod handlers act on: everything outside the host. *)
Context {W : Type}.

(** The interface [DSMod].  An absent property is [None]; an absent
    [disabled] is [false].  A handler is given the host as its last
    argument; the handlers covered here act on the state outside the
    host and leave the host's own fields alone. *)
Record DSMod := {
  name : JSString;
  disabled : bool;
  intents : option (list Intent);
  command : option JSString;
  aliases : option (list JSString);
  onInit : option (W -> W * Completion);
  onMsgCreate : option (Message -> option (list JSString) -> W -> W * Completion);
  onMsgUpdate : option (Message -> Message -> W -> W * Completion);
  onMsgDelete : option (DeletedMessage -> list JSString -> W -> W * Completion)
}.

(** What the host runs in: the store of mod objects (descriptors are not
    mutated once loaded), the module loader [require] applied to the
    files of the mods directory, and the locale's lower-casing. *)
Record Env := {
  heap : ModRef -> DSMod;
  require : JSString -> ModRef;
  toLocaleLowerCase : JSString -> JSString
}.

(** A handler invocation with the arguments it is given. *)
Inductive Call :=
| CallInit (m : ModRef)
| CallMsgCreate (m : ModRef) (message : Message) (args : option (list JSString))
| CallMsgUpdate (m : ModRef) (oldMessage newMessage : Message)
| CallMsgDelete (m : ModRef) (message : DeletedMessage) (args : list JSString).

Definition call_mod (c : Call) : ModRef :=
  match c with
  | CallInit m | CallMsgCreate m _ _ | CallMsgUpdate m _ _ | CallMsgDelete m _ _ => m
  end.

(** The token list a call hands to the handler, when it hands one. *)
Definition call_tokens (c : Call) : option (list JSString) :=
  match c with
  | CallInit _ => None
  | CallMsgCreate _ _ args => args
  | CallMsgUpdate _ _ _ => None
  | CallMsgDelete _ _ args => Some args
  end.

(** The lines the host writes to its logger; the logger formats them. *)
Inductive LogLine :=
| LogPlatform
| LogLoaded (mod_name item : JSString)
| LogAliases (mod_name : JSString) (a : list JSString)
| LogCommands (mod_name : JSString) (c : option JSString)
| LogIntents (mod_name : JSString) (i : list Intent)
| LogRequested (i : IntentsValue)
| LogAllowed (i : IntentsValue) (from_options : bool)
| LogModError (mod_name : JSString) (e : Exn).

Inductive Level := LevelLog | LevelError.

(** What can be observed of a run, in order. *)
Inductive Event :=
| Called (c : Call) (how : Completion)
| Logged (lvl : Level) (line : LogLine).

(** The fields of [SucklessBot] the modelled methods use, the state of
    the handlers and the observations made so far. *)
Record Bot := {
  config_prefix : JSString;
  clientOptions : option ClientOptions;
  mods : list ModRef;
  cmdMgr : gmap JSString ModRef;
  client : option IntentsValue;
  world : W;
  trace : list Event
}.

Definition set_mods (f : list ModRef -> list ModRef) (s : Bot) : Bot :=
  {| config_prefix := config_prefix s; clientOptions := clientOptions s;
     mods := f (mods s); cmdMgr := cmdMgr s; client := client s;
     world := world s; trace := trace s |}.

Definition set_cmdMgr (f : gmap JSString ModRef -> gmap JSString ModRef) (s : Bot) : Bot :=
  {| config_prefix := config_prefix s; clientOptions := clientOptions s;
     mods := mods s; cmdMgr := f (cmdMgr s); client := client s;
     world := world s; trace := trace s |}.

Definition set_client (i : IntentsValue) (s : Bot) : Bot :=
  {| config_prefix := config_prefix s; clientOptions := clientOptions s;
     mods := mods s; cmdMgr := cmdMgr s; client := Some i;
     world := world s; trace := trace s |}.

Definition set_world (w : W) (s : Bot) : Bot :=
  {| config_prefix := config_prefix s; clientOptions := clientOptions s;
     mods := mods s; cmdMgr := cmdMgr s; client := client s;
     world := w; trace := trace s |}.

Definition emit (ev : list Event) (s : Bot) : Bot :=
  {| config_prefix := config_prefix s; clientOptions := clientOptions s;
     mods := mods s; cmdMgr := cmdMgr s; client := client s;
     world := world s; trace := trace s ++ ev |}.

(** ** Computations of the host: state and exceptions *)

Definition M (A : Type) : Type := Bot -> Res A * Bot.

#[global] Instance M_ret : MRet M := fun A a s => (Ok a, s).

#[global] Instance M_bind : MBind M := fun A B f c s =>
  match c s with
  | (Ok a, s') => f a s'
  | (Throw e, s') => (Throw e, s')
  end.

Definition throw {A} (e : Exn) : M A := fun s => (Throw e, s).

(** [try { body } catch (e) { handler }]. *)
Definition try_catch (body : M unit) (handler : Exn -> M unit) : M unit :=
  fun s =>
    match body s with
    | (Ok a, s') => (Ok a, s')
    | (Throw e, s') => handler e s'
    end.

Definition gets {A} (f : Bot -> A) : M A := fun s => (Ok (f s), s).

Definition modify (f : Bot -> Bot) : M unit := fun s => (Ok tt, f s).

(** [Array.prototype.forEach]: an exception of the callback ends the
    loop and leaves it. *)
Fixpoint forEach {A} (a : list A) (callback : A -> M unit) : M unit :=
  match a with
  | [] => mret tt
  | x :: rest => callback x ;; forEach rest callback
  end.

(** A [forEach] whose callback updates a local of the enclosing
    function: the local is passed along. *)
Fixpoint forEach_with {A B} (a : list A) (callback : B -> A -> M B) (local : B) : M B :=
  match a with
  | [] => mret local
  | x :: rest => local' ← callback local x; forEach_with rest callback local'
  end.

(** Calling a handler: it acts on the state outside the host, and the
    call with its completion is observed. *)
Definition invoke (c : Call) (h : W -> W * Completion) : M unit :=
  fun s =>
    let (w, how) := h (world s) in
    let s' := emit [Called c how] (set_world w s) in
    match how with
    | Normal => (Ok tt, s')
    | Abrupt e => (Throw e, s')
    end.

Definition logger_log (line : LogLine) : M unit :=
  modify (emit [Logged LevelLog line]).

Definition logger_error (line : LogLine) : M unit :=
  modify (emit [Logged LevelError line]).

(** The body of every catch block:
    [this.logger.error(`[${mod.name}] ${e}\n${e.stack}`)].  The template
    is evaluated first, and reading [stack] of [undefined] or [null]
    throws. *)
Definition log_fault (mod_name : JSString) (e : Exn) : M unit :=
  match e with
  | ErrorObject _ _ => logger_error (LogModError mod_name e)
  | Undefined => throw (TypeError "Cannot read properties of undefined (reading 'stack')")
  | Null => throw (TypeError "Cannot read properties of null (reading 'stack')")
  end.

(** ** The command manager *)

(** Modelled from the spec: the class [CommandManager] of
    [manager/commandmanager], which is not among the sources.  The
    registry maps a normalised keyword to the mod that owns it.  A
    keyword is claimed unless it is already owned: the first writer wins
    silently. *)
Definition claim (E : Env) (md : ModRef) (reg : gmap JSString ModRef)
    (keyword : JSString) : gmap JSString ModRef :=
  let k := toLocaleLowerCase E keyword in
  match reg !! k with
  | Some _ => reg
  | None => <[k := md]> reg
  end.

(** Modelled from the spec: [CommandManager.register], which claims each
    alias in the order given and then the primary command, if any. *)
Definition register (E : Env) (md : ModRef) (reg : gmap JSString ModRef)
    : gmap JSString ModRef :=
  let reg' := foldl (claim E md) reg (default [] (aliases (heap E md))) in
  match command (heap E md) with
  | Some c => claim E md reg' c
  | None => reg'
  end.

(** Modelled from the spec: [CommandManager.getMod], an exact match on
    the normalised keyword; [None] is the not-found result. *)
Definition getMod (E : Env) (keyword : JSString) (reg : gmap JSString ModRef)
    : option ModRef :=
  reg !! toLocaleLowerCase E keyword.

(** ** The start-up phase *)

(** [intents.toString() !== ""].  For an array of flags the conversion
    joins the decimal renderings of the elements with commas, so it is
    empty exactly for the empty array; a number renders to at least one
    digit. *)
Definition toString_nonempty (i : IntentsValue) : bool :=
  match i with
  | IntentFlags [] => false
  | IntentFlags (_ :: _) => true
  | IntentBits _ => true
  end.

(** The body of the loop over the mods directory.  [requested] is the
    local [intents] of [__init], which the callback adds to. *)
Definition load (E : Env) (requested : list Intent) (item : JSString)
    : M (list Intent) :=
  if negb (endsWith (js ".js") item) then mret requested
  else
    let md := require E item in
    if disabled (heap E md) then mret requested
    else
      match intents (heap E md) with
      | None => throw (TypeError "Cannot read properties of undefined (reading 'forEach')")
      | Some wanted =>
          let requested' := foldl (push_new N.eqb) requested wanted in
          modify (set_cmdMgr (register E md)) ;;
          modify (set_mods (fun l => l ++ [md])) ;;
          match onInit (heap E md) with
          | Some h =>
              try_catch (invoke (CallInit md) h) (log_fault (name (heap E md)))
          | None => mret tt
          end ;;
          logger_log (LogLoaded (name (heap E md)) item) ;;
          match aliases (heap E md) with
          | Some a => logger_log (LogAliases (name (heap E md)) a)
          | None => mret tt
          end ;;
          logger_log (LogCommands (name (heap E md)) (command (heap E md))) ;;
          logger_log (LogIntents (name (heap E md)) wanted) ;;
          mret requested'
      end.

(** [SucklessBot.__init]; [listing] is what [fs.readdirSync] returns for
    the mods directory. *)
Definition __init (E : Env) (listing : list JSString) : M unit :=
  logger_log LogPlatform ;;
  requested ← forEach_with listing (load E) [] ;
  options ← gets clientOptions ;
  match options with
  | None => throw (TypeError "Cannot read properties of undefined (reading 'intents')")
  | Some o =>
      match co_intents o with
      | None => throw (TypeError "Cannot read properties of undefined (reading 'toString')")
      | Some configured =>
          let overrides := toString_nonempty configured in
          let requested' := if overrides then configured else IntentFlags requested in
          logger_log (LogRequested requested') ;;
          logger_log (LogAllowed requested' overrides) ;;
          modify (set_client requested')
      end
  end.

(** ** The event entry points *)

(** The loop both plain-message branches of [__onMessage] run. *)
Definition forEach_onMsgCreate (E : Env) (message : Message) : M unit :=
  l ← gets mods ;
  forEach l (fun md =>
    try_catch
      match onMsgCreate (heap E md) with
      | Some h => invoke (CallMsgCreate md message None) (h message None)
      | None => mret tt
      end
      (log_fault (name (heap E md)))).

(** [SucklessBot.__onMessage]. *)
Definition __onMessage (E : Env) (message : Message) : M unit :=
  prefix ← gets config_prefix ;
  if negb (startsWith prefix (content message)) then forEach_onMsgCreate E message
  else
    let msg := trim (replace prefix [] (content message)) in
    match shift (split msg) with
    | (None, _) =>
        throw (TypeError "Cannot read properties of undefined (reading 'toLocaleLowerCase')")
    | (Some first, arg) =>
        let cmd := toLocaleLowerCase E first in
        found ← gets (fun s => getMod E cmd (cmdMgr s)) ;
        match found with
        | None => forEach_onMsgCreate E message
        | Some md =>
            match onMsgCreate (heap E md) with
            | Some h =>
                try_catch (invoke (CallMsgCreate md message (Some arg)) (h message (Some arg)))
                  (log_fault (name (heap E md)))
            | None => mret tt
            end
        end
    end.

(** The copy of the mod list without repeated references that
    [__onDelete] and [__onUpdate] build first. *)
Definition distinct_mods (l : list ModRef) : list ModRef :=
  foldl (push_new Nat.eqb) [] l.

(** [message.content.split(/ +/)] on what a delete event carries; it
    throws on the [null] content of a partial. *)
Definition content_split (message : DeletedMessage) : M (list JSString) :=
  match deleted_content message with
  | Some text => mret (split text)
  | None => throw (TypeError "Cannot read properties of null (reading 'split')")
  end.

(** [SucklessBot.__onDelete].  The arguments of the handler call are
    evaluated inside the [try]. *)
Definition __onDelete (E : Env) (message : DeletedMessage) : M unit :=
  l ← gets mods ;
  forEach (distinct_mods l) (fun md =>
    match onMsgDelete (heap E md) with
    | Some h =>
        try_catch
          (args ← content_split message ;
           invoke (CallMsgDelete md message args) (h message args))
          (log_fault (name (heap E md)))
    | None => mret tt
    end).

(** [SucklessBot.__onUpdate]. *)
Definition __onUpdate (E : Env) (oldMessage newMessage : Message) : M unit :=
  l ← gets mods ;
  forEach (distinct_mods l) (fun md =>
    match onMsgUpdate (heap E md) with
    | Some h =>
        try_catch
          (invoke (CallMsgUpdate md oldMessage newMessage) (h oldMessage newMessage))
          (log_fault (name (heap E md)))
    | None => mret tt
    end).

(** The host as constructed, before [start]: no mod, an empty registry,
    no client. *)
Definition new_bot (prefix : JSString) (options : option ClientOptions) (w : W) : Bot :=
  {| config_prefix := prefix; clientOptions := options; mods := [];
     cmdMgr := ∅; client := None; world := w; trace := [] |}.

End Model.

Arguments DSMod W : clear implicits.
Arguments Env W : clear implicits.
Arguments Bot W : clear implicits.

(** ** What the properties are stated with *)

(** The handler calls among the observations, in order. *)
Fixpoint calls_of (ev : list Event) : list Call :=
  match ev with
  | [] => []
  | Called c _ :: rest => c :: calls_of rest
  | Logged _ _ :: rest => calls_of rest
  end.

(** Fault isolation on a run's observations: every handler call that
    ends by throwing [e] is followed at once by an error line that
    carries the name of the called mod and [e] (hence its stack). *)
Inductive isolated {W} (E : Env W) : list Event -> Prop :=
| isolated_nil : isolated E []
| isolated_logged lvl line ev :
    isolated E ev -> isolated E (Logged lvl line :: ev)
| isolated_returned c ev :
    isolated E ev -> isolated E (Called c Normal :: ev)
| isolated_threw c e ev :
    isolated E ev ->
    isolated E (Called c (Abrupt e)
                :: Logged LevelError (LogModError (name (heap E (call_mod c))) e)
                :: ev).

(** The mods files [__init] loads: JavaScript files whose descriptor is
    not disabled. *)
Definition enabled {W} (E : Env W) (item : JSString) : bool :=
  endsWith (js ".js") item && negb (disabled (heap E (require E item))).

(** Every enabled descriptor of the listing supplies [intents]. *)
Definition supplies_intents {W} (E : Env W) (listing : list JSString) : bool :=
  forallb (fun item => implb (enabled E item)
                         (bool_decide (is_Some (intents (heap E (require E item))))))
    listing.

(** The mods loaded from a listing, in load order. *)
Definition loaded {W} (E : Env W) (listing : list JSString) : list ModRef :=
  require E <$> List.filter (enabled E) listing.

(** Following the spec's words, for comparison with [split]: the tokens
    of a text split on runs of whitespace. *)
Definition whitespace_tokens (s : JSString) : list JSString :=
  split_runs isWhiteSpace false [] s.

(** [s'] differs from [s] by the outside state and by the observations
    [ev] made since: the host's own fields are the same. *)
Definition extends {W} (s s' : Bot W) (ev : list Event) : Prop :=
  config_prefix s' = config_prefix s /\ clientOptions s' = clientOptions s /\
  mods s' = mods s /\ cmdMgr s' = cmdMgr s /\ client s' = client s /\
  trace s' = trace s ++ ev.

(** From every state, [c] returns [a] without throwing, leaves the host's
    fields alone, makes exactly the handler calls [expected], in that
    order, and isolates their faults. *)
Definition delivers {W A} (E : Env W) (c : M (W:=W) A) (a : A) (expected : list Call) : Prop :=
  forall s, exists s' ev,
    c s = (Ok a, s') /\ extends s s' ev /\ calls_of ev = expected /\ isolated E ev.

(** The catch blocks can log the way a call ended: it returned, or it
    threw a value whose [stack] can be read. *)
Definition is_loggable (how : Completion) : bool :=
  match how with
  | Normal => true
  | Abrupt (ErrorObject _ _) => true
  | Abrupt Undefined => false
  | Abrupt Null => false
  end.

(** No handler of any mod ever throws [undefined] or [null]. *)
Definition throws_loggable {W} (E : Env W) : Prop :=
  forall md,
    (forall h w, onInit (heap E md) = Some h -> is_loggable (snd (h w)) = true) /\
    (forall h m a w, onMsgCreate (heap E md) = Some h ->
                     is_loggable (snd (h m a w)) = true) /\
    (forall h o n w, onMsgUpdate (heap E md) = Some h ->
                     is_loggable (snd (h o n w)) = true) /\
    (forall h m a w, onMsgDelete (heap E md) = Some h ->
                     is_loggable (snd (h m a w)) = true).

(** The error line that follows a call that threw. *)
Definition fault_line {W} (E : Env W) (c : Call) (how : Completion) : list Event :=
  match how with
  | Normal => []
  | Abrupt e => [Logged LevelError (LogModError (name (heap E (call_mod c))) e)]
  end.

(** One guarded handler call, seen from outside: the handler acts on
    the state outside the host, the call is observed with the
    completion the handler gave, and a throw is followed by its error
    line. *)
Definition handler_step {W} (E : Env W) (c : Call) (h : W -> W * Completion) (w : W)
    : W * list Event :=
  (fst (h w), Called c (snd (h w)) :: fault_line E c (snd (h w))).

(** A run of guarded handler calls over a list, in order: the state
    outside the host it ends in and what it leaves to be observed. *)
Fixpoint handlers_run {W A} (E : Env W) (call : A -> Call)
    (handler : A -> option (W -> W * Completion)) (l : list A) (w : W)
    : W * list Event :=
  match l with
  | [] => (w, [])
  | x :: rest =>
      match handler x with
      | Some h =>
          let step := handler_step E (call x) h w in
          let run := handlers_run E call handler rest (fst step) in
          (fst run, snd step ++ snd run)
      | None => handlers_run E call handler rest w
      end
  end.

(** The host after such a run. *)
Definition after_run {W} (run : W * list Event) (s : Bot W) : Bot W :=
  emit (snd run) (set_world (fst run) s).

(** The call [__init] makes for a loaded mod. *)
Definition init_call {W} (E : Env W) (md : ModRef) : list Call :=
  match onInit (heap E md) with
  | Some _ => [CallInit md]
  | None => []
  end.

(** The flags the loaded mods ask for, in load order. *)
Definition wanted_intents {W} (E : Env W) (listing : list JSString) : list Intent :=
  concat ((fun md => default [] (intents (heap E md))) <$> loaded E listing).

(** The mod [D] is nowhere in the host: not in the mod list, not an
    owner in the registry, and no handler of it has been called. *)
Definition absent {W} (D : ModRef) (s : Bot W) : Prop :=
  (D ∉ mods s) /\ (forall k, cmdMgr s !! k <> Some D) /\
  (forall c, c ∈ calls_of (trace s) -> call_mod c <> D).

(** [c] keeps the property [P] of the state, however it ends. *)
Definition preserves {W A} (P : Bot W -> Prop) (c : M (W:=W) A) : Prop :=
  forall s, P s -> P (snd (c s)).

(** The text is empty or its last code unit is no separator. *)
Definition ends_in_token (sep : N -> bool) (s : JSString) : Prop :=
  match last s with
  | Some d => sep d = false
  | None => True
  end.

(** Every argument list handed to a handler in [ev] is made of
    non-empty tokens that hold no space. *)
Definition hands_only_tokens (ev : list Event) : Prop :=
  forall c args, c ∈ calls_of ev -> call_tokens c = Some args ->
                 Forall (fun a => a <> [] /\ 32 ∉ a) args.

(** The observations made since the state [s0] satisfy [P]. *)
Definition since {W} (s0 : Bot W) (P : list Event -> Prop) (s : Bot W) : Prop :=
  exists ev, trace s = trace s0 ++ ev /\ P ev.

(** ** The constructor *)

(** The parsed configuration file, of which the host reads [token] and
    [prefix]; the file is taken to hold a JSON object. *)
Record Config := { cfg_token : option JSString; cfg_prefix : JSString }.

(** The [options] object of the constructor; an absent property is
    [None]. *)
Record Options := {
  opt_token : option JSString;
  opt_config : option JSString;
  opt_debug : option bool;
  opt_clientOptions : option ClientOptions
}.

(** Truthiness of a value that is a string or [undefined]. *)
Definition truthy (v : option JSString) : bool :=
  match v with
  | Some (_ :: _) => true
  | _ => false
  end.

(** [a || b] on such values. *)
Definition or_else (a b : option JSString) : option JSString :=
  if truthy a then a else b.

(** The file the field initialiser of [config] reads:
    [process.env.SUCKLESS_CONFIG || `${path}/config.json`]. *)
Definition default_config_path (env : option JSString) (path : JSString) : JSString :=
  if truthy env then default [] env else path ++ js "/config.json".

(** What the constructor leaves: the token, the debug flag and the
    fields the start-up phase and the entry points work on. *)
Record Constructed {W : Type} := {
  __token : option JSString;
  debug : option bool;
  instance : Bot W
}.
Arguments Constructed W : clear implicits.

(** The constructor of [SucklessBot], field initialisers first.
    [readConfig p] is [JSON.parse(fs.readFileSync(p, "utf8"))], which
    throws when the file cannot be read or parsed; [env] is
    [process.env.SUCKLESS_CONFIG], [path] the directory of the main
    module and [w] the state outside the host.  The listener the
    constructor attaches to the host's own [debug] event touches none of
    these fields. *)
Definition constructor {W} (readConfig : JSString -> Res Config)
    (env : option JSString) (path : JSString) (w : W) (options : option Options)
    : Res (Constructed W) :=
  match readConfig (default_config_path env path) with
  | Throw e => Throw e
  | Ok config =>
      match options with
      | None => Throw (TypeError "Cannot read properties of undefined (reading 'debug')")
      | Some o =>
          let token := or_else (opt_token o) (cfg_token config) in
          if truthy (opt_config o) then
            match readConfig (default [] (opt_config o)) with
            | Throw e => Throw e
            | Ok config' =>
                Ok {| __token := token; debug := opt_debug o;
                      instance := new_bot (cfg_prefix config') (opt_clientOptions o) w |}
            end
          else
            Ok {| __token := token; debug := opt_debug o;
                  instance := new_bot (cfg_prefix config) (opt_clientOptions o) w |}
      end
  end.

(** What a run of handlers does to the state outside the host: each
    handler acts on the state its predecessor left, whether that one
    returned or threw. *)
Definition after_handlers {W A} (handler : A -> option (W -> W * Completion))
    (l : list A) (w : W) : W :=
  foldl (fun w x => match handler x with
                    | Some h => fst (h w)
                    | None => w
                    end) w l.

(** ** A concrete host *)

(** ASCII lower-casing, the action of [toLocaleLowerCase] on Basic Latin
    in every locale but the Turkic ones. *)
Definition ascii_lower (s : JSString) : JSString :=
  List.map (fun c => if (65 <=? c) && (c <=? 90) then c + 32 else c) s.

(** The handlers of the concrete host record the reference of their mod
    in the outside state and then return or throw. *)
Definition returns (m : nat) (w : list nat) : list nat * Completion :=
  (w ++ [m], Normal).

Definition throws (m : nat) (w : list nat) : list nat * Completion :=
  (w ++ [m], Abrupt (ErrorObject (js "Error: boom") (js "at handler"))).

(** The descriptor of [mods/votemute.ts]. *)
Definition votemute : DSMod (list nat) :=
  {| name := js "Vote mute"; disabled := false;
     intents := Some [1; 2; 512; 1024];
     command := Some (js "votemute"); aliases := Some [js "vm"];
     onInit := None;
     onMsgCreate := Some (fun _ _ => returns 0%nat);
     onMsgUpdate := None; onMsgDelete := None |}.

(** A listener without a command, whose handlers all throw. *)
Definition audit : DSMod (list nat) :=
  {| name := js "Audit"; disabled := false;
     intents := Some [1; 512];
     command := None; aliases := None;
     onInit := Some (throws 1%nat);
     onMsgCreate := Some (fun _ _ => throws 1%nat);
     onMsgUpdate := Some (fun _ _ => throws 1%nat);
     onMsgDelete := Some (fun _ _ => throws 1%nat) |}.

(** A mod whose primary command is the alias of [votemute]. *)
Definition volume : DSMod (list nat) :=
  {| name := js "Volume"; disabled := false;
     intents := Some [];
     command := Some (js "vm"); aliases := Some [js "vol"];
     onInit := Some (returns 2%nat);
     onMsgCreate := Some (fun _ _ => returns 2%nat);
     onMsgUpdate := Some (fun _ _ => returns 2%nat);
     onMsgDelete := Some (fun _ _ => returns 2%nat) |}.

(** A disabled mod. *)
Definition retired : DSMod (list nat) :=
  {| name := js "Retired"; disabled := true;
     intents := Some [4096];
     command := Some (js "old"); aliases := Some [js "o"];
     onInit := Some (returns 3%nat);
     onMsgCreate := Some (fun _ _ => returns 3%nat);
     onMsgUpdate := None; onMsgDelete := None |}.

(** A mod that supplies a name and nothing else. *)
Definition bare : DSMod (list nat) :=
  {| name := js "Bare"; disabled := false;
     intents := None; command := None; aliases := None;
     onInit := None; onMsgCreate := None;
     onMsgUpdate := None; onMsgDelete := None |}.

(** A mod with a command and no message handler. *)
Definition silent : DSMod (list nat) :=
  {| name := js "Silent"; disabled := false;
     intents := Some [1];
     command := Some (js "silent"); aliases := None;
     onInit := None; onMsgCreate := None;
     onMsgUpdate := None; onMsgDelete := None |}.

Definition demo_heap (m : ModRef) : DSMod (list nat) :=
  match m with
  | 0%nat => votemute
  | 1%nat => audit
  | 2%nat => volume
  | 3%nat => retired
  | 4%nat => bare
  | _ => silent
  end.

Definition demo_require (item : JSString) : ModRef :=
  if decide (item = js "votemute.js") then 0%nat
  else if decide (item = js "audit.js") then 1%nat
  else if decide (item = js "volume.js") then 2%nat
  else if decide (item = js "retired.js") then 3%nat
  else if decide (item = js "bare.js") then 4%nat
  else 5%nat.

Definition demo : Env (list nat) :=
  {| heap := demo_heap; require := demo_require; toLocaleLowerCase := ascii_lower |}.

Definition demo_listing : list JSString :=
  [js "votemute.js"; js "audit.js"; js "README.md"; js "volume.js";
   js "retired.js"; js "silent.js"].

(** The host with prefix [!] and no intents of its own. *)
Definition demo_new : Bot (list nat) :=
  new_bot (js "!") (Some {| co_intents := Some (IntentFlags []) |}) [].

(** The host after [start] has run [__init] on [demo_listing]. *)
Definition demo_bot : Bot (list nat) :=
  let s := snd (__init demo demo_listing demo_new) in
  {| config_prefix := config_prefix s; clientOptions := clientOptions s;
     mods := mods s; cmdMgr := cmdMgr s; client := client s;
     world := []; trace := [] |}.

Definition text (s : string) : Message := {| content := js s; message_id := 7 |}.

(** A command followed by a line feed (U+000A) instead of a space. *)
Definition multiline : Message :=
  {| content := js "!vm" ++ [10] ++ js "@user"; message_id := 8 |}.

(** Delete events: for a cached message, and for a partial. *)
Definition removed (s : string) : DeletedMessage :=
  {| deleted_content := Some (js s); deleted_id := 7 |}.


Definition removed_partial : DeletedMessage :=
  {| deleted_content := None; deleted_id := 9 |}.


(** A mod whose message handler throws [undefined], and a host that
    loads it before [volume]. *)
Definition crasher : DSMod (list nat) :=
  {| name := js "Crasher"; disabled := false;
     intents := Some [];
     command := None; aliases := None;
     onInit := None;
     onMsgCreate := Some (fun _ _ w => (w ++ [6%nat], Abrupt Undefined));
     onMsgUpdate := None; onMsgDelete := None |}.

Definition faulty : Env (list nat) :=
  {| heap := fun m => match m with 6%nat => crasher | _ => demo_heap m end;
     require := fun item => if decide (item = js "crasher.js") then 6%nat
                            else demo_require item;
     toLocaleLowerCase := ascii_lower |}.

Definition faulty_bot : Bot (list nat) :=
  let s := snd (__init faulty [js "crasher.js"; js "volume.js"] demo_new) in
  {| config_prefix := config_prefix s; clientOptions := clientOptions s;
     mods := mods s; cmdMgr := cmdMgr s; client := client s;
     world := []; trace := [] |}.

(** Two configuration files: the default one and a custom one. *)
Definition demo_readConfig (p : JSString) : Res Config :=
  if decide (p = js "/srv/bot/config.json")
  then Ok {| cfg_token := Some (js "default-token"); cfg_prefix := js "!" |}
  else if decide (p = js "/etc/bot.json")
  then Ok {| cfg_token := Some (js "custom-token"); cfg_prefix := js "?" |}
  else Throw (ErrorObject (js "Error: ENOENT") (js "at readFileSync")).

Definition demo_options : Options :=
  {| opt_token := None; opt_config := Some (js "/etc/bot.json");
     opt_debug := None; opt_clientOptions := None |}.

(** ** String primitives *)

Lemma startsWith_app (p r : JSString) : startsWith p (p ++ r) = true.
Proof.
  induction p as [|c p IH]; simpl; [reflexivity|].
  unfold code_eqb. rewrite N.eqb_refl. exact IH.
Qed.

Lemma replace_prefix (p r : JSString) : replace p [] (p ++ r) = r.
Proof.
  assert (H : replace p [] (p ++ r) = List.skipn (List.length p) (p ++ r)).
  { pose proof (startsWith_app p r) as Hs.
    destruct (p ++ r) eqn:Heq; simpl; rewrite Hs; reflexivity. }
  rewrite H. apply drop_app_length.
Qed.

Lemma split_runs_nonempty sep in_run cur s : split_runs sep in_run cur s <> [].
Proof.
  revert in_run cur. induction s as [|c s IH]; intros in_run cur; simpl; [discriminate|].
  destruct (sep c); [destruct in_run|]; try apply IH; discriminate.
Qed.

Lemma shift_split (s : JSString) :
  exists first arg, split s = first :: arg /\ shift (split s) = (Some first, arg).
Proof.
  unfold split. pose proof (split_runs_nonempty isSpace false [] s) as H.
  destruct (split_runs isSpace false [] s) as [|first arg]; [contradiction|].
  exists first, arg. split; reflexivity.
Qed.

(** ** The guarded push *)

Section PushNew.

Context {A : Type} (eqb : A -> A -> bool).
Hypothesis eqb_spec : forall a b, eqb a b = true <-> a = b.

Lemma includes_spec (x : A) (a : list A) : includes eqb x a = true <-> x ∈ a.
Proof.
  unfold includes. rewrite existsb_exists. split.
  - intros (y & Hy & He). apply eqb_spec in He. subst. by apply list_elem_of_In.
  - intros Hx. exists x. split; [by apply list_elem_of_In|by apply eqb_spec].
Qed.





End PushNew.



(** ** Observations *)

Lemma calls_of_app (a b : list Event) : calls_of (a ++ b) = calls_of a ++ calls_of b.
Proof.
  induction a as [|[c how|lvl line] a IH]; simpl; [reflexivity| |exact IH].
  by rewrite IH.
Qed.

Section Delivery.

Context {W : Type} (E : Env W).

Lemma isolated_app (a b : list Event) : isolated E a -> isolated E b -> isolated E (a ++ b).
Proof. induction 1; intros Hb; simpl; try constructor; auto. Qed.

Lemma extends_refl (s : Bot W) : extends s s [].
Proof. unfold extends. rewrite app_nil_r. tauto. Qed.

Lemma extends_trans (s1 s2 s3 : Bot W) (a b : list Event) :
  extends s1 s2 a -> extends s2 s3 b -> extends s1 s3 (a ++ b).
Proof.
  unfold extends. intros (?&?&?&?&?&Ha) (?&?&?&?&?&Hb).
  rewrite Hb, Ha, <- app_assoc. split_and!; congruence.
Qed.

(** *** Rules for [delivers] *)

Lemma delivers_ret {A} (a : A) : delivers E (mret a) a [].
Proof.
  intros s. exists s, []. split_and!; [reflexivity|apply extends_refl|reflexivity|constructor].
Qed.

Lemma delivers_bind {A B} (c : M A) (k : A -> M B) a b xs ys :
  delivers E c a xs -> delivers E (k a) b ys -> delivers E (c ≫= k) b (xs ++ ys).
Proof.
  intros Hc Hk s.
  destruct (Hc s) as (s1 & ev1 & Hr1 & He1 & Hc1 & Hi1).
  destruct (Hk s1) as (s2 & ev2 & Hr2 & He2 & Hc2 & Hi2).
  exists s2, (ev1 ++ ev2). split_and!.
  - unfold mbind, M_bind. by rewrite Hr1.
  - by eapply extends_trans.
  - rewrite calls_of_app. congruence.
  - by apply isolated_app.
Qed.

Lemma delivers_logger_log (line : LogLine) : delivers E (logger_log line) tt [].
Proof.
  intros s. exists (emit [Logged LevelLog line] s), [Logged LevelLog line].
  split_and!; [reflexivity|by unfold extends|reflexivity|repeat constructor].
Qed.

(** *** One guarded call *)

Lemma fault_line_isolated (c : Call) (how : Completion) :
  isolated E (Called c how :: fault_line E c how).
Proof. destruct how; repeat constructor. Qed.

(** The guarded call every entry point makes, when the handler's throw
    can be logged: the exception is caught and logged under the mod's
    name, and the call returns. *)
Lemma try_invoke_run (c : Call) (h : W -> W * Completion) (s : Bot W) :
  is_loggable (snd (h (world s))) = true ->
  try_catch (invoke c h) (log_fault (name (heap E (call_mod c)))) s
  = (Ok tt, after_run (handler_step E c h (world s)) s).
Proof.
  unfold try_catch, invoke, after_run, handler_step.
  destruct (h (world s)) as [w [|[text stack| |]]]; simpl; try discriminate; intros _.
  - reflexivity.
  - unfold logger_error, modify, emit, set_world. simpl. by rewrite <- app_assoc.
Qed.

(** The same call when the handler throws [undefined] or [null]: the
    catch block throws in its turn, and nothing is logged. *)
Lemma try_invoke_escapes (c : Call) (h : W -> W * Completion) (s : Bot W) :
  is_loggable (snd (h (world s))) = false ->
  exists e, try_catch (invoke c h) (log_fault (name (heap E (call_mod c)))) s
            = (Throw e, emit [Called c (snd (h (world s)))] (set_world (fst (h (world s))) s)).
Proof.
  unfold try_catch, invoke.
  destruct (h (world s)) as [w [|[text stack| |]]]; simpl; try discriminate; intros _;
    by eexists.
Qed.

Lemma after_run_extends (run : W * list Event) (s : Bot W) :
  extends s (after_run run s) (snd run).
Proof. by unfold extends. Qed.

Lemma delivers_try_invoke (c : Call) (h : W -> W * Completion) :
  (forall w, is_loggable (snd (h w)) = true) ->
  delivers E (try_catch (invoke c h) (log_fault (name (heap E (call_mod c))))) tt [c].
Proof.
  intros Hh s. eexists _, _. split_and!.
  - by apply try_invoke_run.
  - apply after_run_extends.
  - simpl. by destruct (snd (h (world s))).
  - apply fault_line_isolated.
Qed.

(** *** A loop of guarded calls *)

Lemma after_run_nil (s : Bot W) : after_run (world s, []) s = s.
Proof. destruct s. unfold after_run, emit, set_world. simpl. by rewrite app_nil_r. Qed.

Lemma after_run_step (c : Call) (h : W -> W * Completion) (run : W -> W * list Event)
    (s : Bot W) :
  after_run (run (fst (handler_step E c h (world s))))
    (after_run (handler_step E c h (world s)) s)
  = after_run (fst (run (fst (handler_step E c h (world s)))),
               snd (handler_step E c h (world s))
               ++ snd (run (fst (handler_step E c h (world s))))) s.
Proof. unfold after_run, emit, set_world. simpl. by rewrite <- app_assoc. Qed.

(** A loop whose body is the guarded call of the element's handler, if
    it has one, is the run of these handlers. *)
Lemma forEach_handlers {A} (l : list A) (callback : A -> M unit) (call : A -> Call)
    (handler : A -> option (W -> W * Completion)) (s : Bot W) :
  (forall x s0,
     callback x s0 = match handler x with
                     | Some h => (Ok tt, after_run (handler_step E (call x) h (world s0)) s0)
                     | None => (Ok tt, s0)
                     end) ->
  forEach l callback s = (Ok tt, after_run (handlers_run E call handler l (world s)) s).
Proof.
  intros Hcb. revert s. induction l as [|x l IH]; intros s; simpl.
  - by rewrite after_run_nil.
  - unfold mbind, M_bind. rewrite Hcb. destruct (handler x) as [h|].
    + rewrite IH. simpl. f_equal.
      apply (after_run_step (call x) h (handlers_run E call handler l)).
    + apply IH.
Qed.

(** What such a run leaves: the state of the handlers in turn, one call
    per element that has a handler, every fault isolated. *)
Lemma handlers_run_world {A} (call : A -> Call)
    (handler : A -> option (W -> W * Completion)) (l : list A) (w : W) :
  fst (handlers_run E call handler l w) = after_handlers handler l w.
Proof.
  revert w. unfold after_handlers. induction l as [|x l IH]; intros w; simpl; [reflexivity|].
  destruct (handler x) as [h|]; simpl; apply IH.
Qed.

Lemma handlers_run_calls {A} (call : A -> Call)
    (handler : A -> option (W -> W * Completion)) (l : list A) (w : W) :
  calls_of (snd (handlers_run E call handler l w))
  = call <$> filter (fun x => is_Some (handler x)) l.
Proof.
  revert w. induction l as [|x l IH]; intros w; simpl; [reflexivity|].
  rewrite filter_cons. destruct (handler x) as [h|] eqn:Hx.
  - rewrite decide_True by eauto. simpl. rewrite calls_of_app, IH.
    destruct (snd (h w)); reflexivity.
  - rewrite decide_False by (by intros [? ?]). apply IH.
Qed.

Lemma handlers_run_isolated {A} (call : A -> Call)
    (handler : A -> option (W -> W * Completion)) (l : list A) (w : W) :
  isolated E (snd (handlers_run E call handler l w)).
Proof.
  revert w. induction l as [|x l IH]; intros w; simpl; [constructor|].
  destruct (handler x) as [h|]; [|apply IH]. simpl.
  change (isolated E ((Called (call x) (snd (h w)) :: fault_line E (call x) (snd (h w)))
                      ++ snd (handlers_run E call handler l (fst (h w))))).
  apply isolated_app; [apply fault_line_isolated|apply IH].
Qed.

(** *** The plain-message loop *)

Lemma forEach_onMsgCreate_run (message : Message) (s : Bot W) :
  throws_loggable E ->
  forEach_onMsgCreate E message s
  = (Ok tt, after_run (handlers_run E (fun md => CallMsgCreate md message None)
                         (fun md => (fun h => h message None) <$> onMsgCreate (heap E md))
                         (mods s) (world s)) s).
Proof.
  intros HE. unfold forEach_onMsgCreate.
  change ((gets mods ≫= ?k) s) with (k (mods s) s). cbv beta.
  apply forEach_handlers. intros md s0.
  destruct (onMsgCreate (heap E md)) as [h|] eqn:Hh; simpl; [|reflexivity].
  apply (try_invoke_run (CallMsgCreate md message None)).
  by apply (HE md).
Qed.

End Delivery.

(** ** Message dispatch *)

Section Dispatch.

Context {W : Type} (E : Env W).

(** What [__onMessage] does with a message that starts with the prefix,
    by the owner of its first token. *)
Lemma onMessage_prefixed (message : Message) (s : Bot W) rest first arg :
  content message = config_prefix s ++ rest ->
  split (trim rest) = first :: arg ->
  __onMessage E message s =
    match getMod E (toLocaleLowerCase E first) (cmdMgr s) with
    | None => forEach_onMsgCreate E message s
    | Some md =>
        match onMsgCreate (heap E md) with
        | Some h =>
            try_catch (invoke (CallMsgCreate md message (Some arg)) (h message (Some arg)))
              (log_fault (name (heap E md))) s
        | None => (Ok tt, s)
        end
    end.
Proof.
  intros Hc Hs. unfold __onMessage, mbind, M_bind, gets.
  rewrite Hc, startsWith_app, replace_prefix, Hs. simpl.
  destruct (getMod E (toLocaleLowerCase E first) (cmdMgr s)) as [md|]; [|reflexivity].
  destruct (onMsgCreate (heap E md)); reflexivity.
Qed.

Lemma onMessage_plain (message : Message) (s : Bot W) :
  startsWith (config_prefix s) (content message) = false ->
  __onMessage E message s = forEach_onMsgCreate E message s.
Proof. intros H. unfold __onMessage, mbind, M_bind, gets. by rewrite H. Qed.


(** The calls of a run whose handlers are those of one kind. *)
Lemma handlers_run_calls_of {H} (call : ModRef -> Call) (field : ModRef -> option H)
    (apply : H -> W -> W * Completion) (l : list ModRef) (w : W) :
  calls_of (snd (handlers_run E call (fun md => apply <$> field md) l w))
  = call <$> filter (fun md => is_Some (field md)) l.
Proof.
  rewrite handlers_run_calls. f_equal. apply list_filter_iff.
  intros md. apply fmap_is_Some.
Qed.

(** The plain-message loop when no handler throws [undefined] or
    [null]: it returns, and it is the run of the [onMsgCreate] handlers
    of the listed mods, each on the message with [args = undefined]. *)
Lemma forEach_onMsgCreate_delivers (message : Message) (s : Bot W) :
  throws_loggable E ->
  exists s' ev,
    forEach_onMsgCreate E message s = (Ok tt, s') /\ extends s s' ev /\
    (world s', ev)
    = handlers_run E (fun md => CallMsgCreate md message None)
        (fun md => (fun h => h message None) <$> onMsgCreate (heap E md))
        (mods s) (world s) /\
    calls_of ev = (fun md => CallMsgCreate md message None)
                    <$> filter (fun md => is_Some (onMsgCreate (heap E md))) (mods s) /\
    isolated E ev.
Proof.
  intros HE. eexists _, _. split_and!.
  - by apply forEach_onMsgCreate_run.
  - apply after_run_extends.
  - simpl. by destruct (handlers_run _ _ _ _ _).
  - apply handlers_run_calls_of.
  - apply handlers_run_isolated.
Qed.



(** C10: when the first token of a prefixed message resolves to a mod
    that has no [onMsgCreate] handler, [__onMessage] returns at once and
    leaves the state as it was: no handler of any mod is called, nothing
    is logged, and the plain-message loop does not run. *)
Theorem command_without_handler_is_dropped
    (message : Message) (s : Bot W) (rest first : JSString) (arg : list JSString)
    (md : ModRef) :
  content message = config_prefix s ++ rest ->
  split (trim rest) = first :: arg ->
  getMod E (toLocaleLowerCase E first) (cmdMgr s) = Some md ->
  onMsgCreate (heap E md) = None ->
  __onMessage E message s = (Ok tt, s).
Proof.
  intros Hc Hs Hg Hh.
  rewrite (onMessage_prefixed _ _ _ _ _ Hc Hs), Hg, Hh. reflexivity.
Qed.

(** C1, amended: tokens are the pieces of the trimmed text between runs
    of the space character U+0020.  When the message starts with the
    prefix and the first token, case-folded, resolves to the mod [md],
    the only handler call [__onMessage] makes is [md]'s [onMsgCreate],
    run on the message with the remaining tokens as argument list (no
    call at all when [md] has no such handler); it returns normally
    unless the handler throws [undefined] or [null]. *)
Theorem resolved_command_goes_to_its_mod_only
    (message : Message) (s : Bot W) (rest first : JSString) (arg : list JSString)
    (md : ModRef) :
  content message = config_prefix s ++ rest ->
  split (trim rest) = first :: arg ->
  getMod E (toLocaleLowerCase E first) (cmdMgr s) = Some md ->
  exists r s' ev,
    __onMessage E message s = (r, s') /\ extends s s' ev /\
    match onMsgCreate (heap E md) with
    | Some h =>
        calls_of ev = [CallMsgCreate md message (Some arg)] /\
        world s' = fst (h message (Some arg) (world s)) /\
        (is_loggable (snd (h message (Some arg) (world s))) = true -> r = Ok tt)
    | None => calls_of ev = [] /\ world s' = world s /\ r = Ok tt
    end.
Proof.
  intros Hc Hs Hg.
  rewrite (onMessage_prefixed _ _ _ _ _ Hc Hs), Hg.
  destruct (onMsgCreate (heap E md)) as [h|].
  - destruct (is_loggable (snd (h message (Some arg) (world s)))) eqn:Hl.
    + pose proof (try_invoke_run E (CallMsgCreate md message (Some arg)) _ _ Hl) as Hrun.
      simpl call_mod in Hrun. rewrite Hrun.
      eexists _, _, _. split_and!; [reflexivity|apply after_run_extends| |reflexivity|done].
      simpl. by destruct (snd (h message (Some arg) (world s))).
    + destruct (try_invoke_escapes E (CallMsgCreate md message (Some arg)) _ _ Hl)
        as [e He].
      simpl call_mod in He. rewrite He.
      eexists _, _, [Called _ _].
      split_and!; [reflexivity|by unfold extends|reflexivity|reflexivity|done].
  - exists (Ok tt), s, [].
    split_and!; [reflexivity|apply extends_refl|reflexivity|reflexivity|reflexivity].
Qed.

End Dispatch.

(** ** Update and delete events *)

Section Lifecycle.

Context {W : Type} (E : Env W).

Lemma startsWith_true (p s : JSString) :
  startsWith p s = true -> exists rest, s = p ++ rest.
Proof.
  revert s. induction p as [|c p IH]; intros s H; simpl in *; [by exists s|].
  destruct s as [|d s]; [discriminate|].
  apply andb_true_iff in H as [Hc Hp]. apply N.eqb_eq in Hc. subst d.
  destruct (IH s Hp) as [rest ->]. by exists rest.
Qed.


Lemma onDelete_run (message : DeletedMessage) (text : JSString) (s : Bot W) :
  throws_loggable E -> deleted_content message = Some text ->
  __onDelete E message s
  = (Ok tt, after_run (handlers_run E (fun md => CallMsgDelete md message (split text))
                         (fun md => (fun h => h message (split text))
                                      <$> onMsgDelete (heap E md))
                         (distinct_mods (mods s)) (world s)) s).
Proof.
  intros HE Hc. unfold __onDelete.
  change ((gets mods ≫= ?k) s) with (k (mods s) s). cbv beta.
  apply forEach_handlers. intros md s0.
  destruct (onMsgDelete (heap E md)) as [h|] eqn:Hh; simpl; [|reflexivity].
  unfold content_split. rewrite Hc.
  apply (try_invoke_run E (CallMsgDelete md message (split text))).
  by apply (HE md).
Qed.

Lemma onUpdate_run (oldMessage newMessage : Message) (s : Bot W) :
  throws_loggable E ->
  __onUpdate E oldMessage newMessage s
  = (Ok tt, after_run (handlers_run E (fun md => CallMsgUpdate md oldMessage newMessage)
                         (fun md => (fun h => h oldMessage newMessage)
                                      <$> onMsgUpdate (heap E md))
                         (distinct_mods (mods s)) (world s)) s).
Proof.
  intros HE. unfold __onUpdate.
  change ((gets mods ≫= ?k) s) with (k (mods s) s). cbv beta.
  apply forEach_handlers. intros md s0.
  destruct (onMsgUpdate (heap E md)) as [h|] eqn:Hh; simpl; [|reflexivity].
  apply (try_invoke_run E (CallMsgUpdate md oldMessage newMessage)).
  by apply (HE md).
Qed.

Lemma onDelete_delivers (message : DeletedMessage) (text : JSString) (s : Bot W) :
  throws_loggable E -> deleted_content message = Some text ->
  exists s' ev,
    __onDelete E message s = (Ok tt, s') /\ extends s s' ev /\
    (world s', ev)
    = handlers_run E (fun md => CallMsgDelete md message (split text))
        (fun md => (fun h => h message (split text)) <$> onMsgDelete (heap E md))
        (distinct_mods (mods s)) (world s) /\
    calls_of ev = (fun md => CallMsgDelete md message (split text))
                    <$> filter (fun md => is_Some (onMsgDelete (heap E md)))
                          (distinct_mods (mods s)) /\
    isolated E ev.
Proof.
  intros HE Hc. eexists _, _. split_and!.
  - by apply onDelete_run.
  - apply after_run_extends.
  - simpl. by destruct (handlers_run _ _ _ _ _).
  - apply handlers_run_calls_of.
  - apply handlers_run_isolated.
Qed.

Lemma onUpdate_delivers (oldMessage newMessage : Message) (s : Bot W) :
  throws_loggable E ->
  exists s' ev,
    __onUpdate E oldMessage newMessage s = (Ok tt, s') /\ extends s s' ev /\
    (world s', ev)
    = handlers_run E (fun md => CallMsgUpdate md oldMessage newMessage)
        (fun md => (fun h => h oldMessage newMessage) <$> onMsgUpdate (heap E md))
        (distinct_mods (mods s)) (world s) /\
    calls_of ev = (fun md => CallMsgUpdate md oldMessage newMessage)
                    <$> filter (fun md => is_Some (onMsgUpdate (heap E md)))
                          (distinct_mods (mods s)) /\
    isolated E ev.
Proof.
  intros HE. eexists _, _. split_and!.
  - by apply onUpdate_run.
  - apply after_run_extends.
  - simpl. by destruct (handlers_run _ _ _ _ _).
  - apply handlers_run_calls_of.
  - apply handlers_run_isolated.
Qed.

(** Whatever the message, when no handler throws [undefined] or
    [null], [__onMessage] returns normally and isolates the faults of
    the calls it makes. *)
Lemma onMessage_isolates (message : Message) (s : Bot W) :
  throws_loggable E ->
  exists s' ev,
    __onMessage E message s = (Ok tt, s') /\ extends s s' ev /\ isolated E ev.
Proof.
  intros HE. destruct (startsWith (config_prefix s) (content message)) eqn:Hp.
  - apply startsWith_true in Hp as [rest Hc].
    destruct (shift_split (trim rest)) as (first & arg & Hs & _).
    rewrite (onMessage_prefixed E _ _ _ _ _ Hc Hs).
    destruct (getMod E (toLocaleLowerCase E first) (cmdMgr s)) as [md|].
    + destruct (onMsgCreate (heap E md)) as [h|] eqn:Hh.
      * destruct (delivers_try_invoke E (CallMsgCreate md message (Some arg))
                    (h message (Some arg))) with (s := s)
          as (s' & ev & Hr & He & _ & Hi).
        { intros w. by apply (HE md). }
        by exists s', ev.
      * exists s, []. split_and!; [reflexivity|apply extends_refl|constructor].
    + destruct (forEach_onMsgCreate_delivers E message s HE)
        as (s' & ev & Hr & He & _ & _ & Hi).
      by exists s', ev.
  - rewrite (onMessage_plain E _ _ Hp).
    destruct (forEach_onMsgCreate_delivers E message s HE)
      as (s' & ev & Hr & He & _ & _ & Hi).
    by exists s', ev.
Qed.


End Lifecycle.

(** ** The command registry *)

Section Registry.

Context {W : Type} (E : Env W).

Lemma claim_keeps (md owner : ModRef) (reg : gmap JSString ModRef) (keyword k : JSString) :
  reg !! k = Some owner -> claim E md reg keyword !! k = Some owner.
Proof.
  intros Hk. unfold claim.
  destruct (reg !! toLocaleLowerCase E keyword) eqn:Hkw; [exact Hk|].
  rewrite lookup_insert_ne; [exact Hk|]. intros Heq. rewrite Heq in Hkw. congruence.
Qed.

Lemma foldl_claim_keeps (md owner : ModRef) (l : list JSString)
    (reg : gmap JSString ModRef) (k : JSString) :
  reg !! k = Some owner -> foldl (claim E md) reg l !! k = Some owner.
Proof.
  revert reg. induction l as [|kw l IH]; intros reg Hk; simpl; [exact Hk|].
  apply IH. by apply claim_keeps.
Qed.

Lemma claim_free (md : ModRef) (reg : gmap JSString ModRef) (keyword : JSString) :
  reg !! toLocaleLowerCase E keyword = None ->
  claim E md reg keyword !! toLocaleLowerCase E keyword = Some md.
Proof. intros Hk. unfold claim. rewrite Hk. apply lookup_insert_eq. Qed.

Lemma claim_other (md : ModRef) (reg : gmap JSString ModRef) (keyword k : JSString) :
  toLocaleLowerCase E keyword <> k -> claim E md reg keyword !! k = reg !! k.
Proof.
  intros Hne. unfold claim.
  destruct (reg !! toLocaleLowerCase E keyword); [reflexivity|].
  by apply lookup_insert_ne.
Qed.

Lemma foldl_claim_free (md : ModRef) (l : list JSString)
    (reg : gmap JSString ModRef) (x : JSString) :
  x ∈ l -> reg !! toLocaleLowerCase E x = None ->
  foldl (claim E md) reg l !! toLocaleLowerCase E x = Some md.
Proof.
  revert reg. induction l as [|kw l IH]; intros reg Hx Hfree; [by apply elem_of_nil in Hx|].
  simpl. destruct (decide (toLocaleLowerCase E kw = toLocaleLowerCase E x)) as [Heq|Hne].
  - apply foldl_claim_keeps. rewrite <- Heq. apply claim_free. by rewrite Heq.
  - apply elem_of_cons in Hx as [->|Hx]; [done|].
    apply IH; [exact Hx|]. by rewrite claim_other.
Qed.

Lemma register_keywords (md : ModRef) (reg : gmap JSString ModRef) :
  register E md reg
  = foldl (claim E md) reg
      (default [] (aliases (heap E md)) ++ option_list (command (heap E md))).
Proof.
  unfold register. rewrite foldl_app.
  destruct (command (heap E md)); reflexivity.
Qed.

Lemma register_keeps (md owner : ModRef) (reg : gmap JSString ModRef) (k : JSString) :
  getMod E k reg = Some owner -> getMod E k (register E md reg) = Some owner.
Proof.
  unfold getMod. intros Hk. rewrite register_keywords. by apply foldl_claim_keeps.
Qed.

Lemma register_alias (md : ModRef) (reg : gmap JSString ModRef) (x : JSString) :
  x ∈ default [] (aliases (heap E md)) -> getMod E x reg = None ->
  getMod E x (register E md reg) = Some md.
Proof.
  unfold getMod. intros Hx Hfree. rewrite register_keywords.
  apply foldl_claim_free; [|exact Hfree]. apply elem_of_app. by left.
Qed.

(** C4: with the registry as the spec describes it, let [A] be
    registered with alias [x] while [x] is still free, and [B], whose
    primary command is [x], be registered after it: [x] resolves to
    [A].  A register call claims the aliases in order and the primary
    command last, and a keyword that resolves to a mod still resolves to
    it after any later register call. *)
Theorem alias_is_not_taken_by_later_command
    (A B : ModRef) (x : JSString) (reg : gmap JSString ModRef) :
  x ∈ default [] (aliases (heap E A)) ->
  command (heap E B) = Some x ->
  getMod E x reg = None ->
  getMod E x (register E B (register E A reg)) = Some A /\
  (forall md r,
     register E md r
     = foldl (claim E md) r
         (default [] (aliases (heap E md)) ++ option_list (command (heap E md)))) /\
  (forall k md owner r,
     getMod E k r = Some owner -> getMod E k (register E md r) = Some owner).
Proof.
  intros Hx _ Hfree. split_and!.
  - by apply register_keeps, register_alias.
  - apply register_keywords.
  - intros k md owner r. apply register_keeps.
Qed.

End Registry.

(** ** The start-up phase *)

Section Startup.

Context {W : Type} (E : Env W).

Lemma delivers_then {A} (c : M unit) (k : M A) (a : A) (xs : list Call) :
  delivers E c tt xs -> delivers E k a [] -> delivers E (c ;; k) a xs.
Proof.
  intros Hc Hk. rewrite <- (app_nil_r xs). by eapply delivers_bind.
Qed.

(** A file that is not an enabled mod is passed over. *)
Lemma load_skip (requested : list Intent) (item : JSString) (s : Bot W) :
  enabled E item = false -> load E requested item s = (Ok requested, s).
Proof.
  unfold enabled, load. intros H.
  destruct (endsWith (js ".js") item); simpl in *; [|reflexivity].
  destruct (disabled (heap E (require E item))); [reflexivity|discriminate].
Qed.

(** An enabled mod without [intents] makes the loop body throw, at the
    [forEach] over them, before anything is registered. *)
Lemma load_without_intents (requested : list Intent) (item : JSString) (s : Bot W) :
  enabled E item = true -> intents (heap E (require E item)) = None ->
  load E requested item s
  = (Throw (TypeError "Cannot read properties of undefined (reading 'forEach')"), s).
Proof.
  unfold enabled, load. intros H Hi.
  destruct (endsWith (js ".js") item); simpl in *; [|discriminate].
  destruct (disabled (heap E (require E item))); [discriminate|].
  rewrite Hi. reflexivity.
Qed.

(** An enabled mod with [intents] is registered, listed, initialised
    under fault isolation and reported. *)
Lemma load_enabled (requested wanted : list Intent) (item : JSString) (s : Bot W) :
  throws_loggable E ->
  enabled E item = true -> intents (heap E (require E item)) = Some wanted ->
  exists s' ev,
    load E requested item s = (Ok (foldl (push_new N.eqb) requested wanted), s') /\
    extends (set_mods (fun l => l ++ [require E item])
               (set_cmdMgr (register E (require E item)) s)) s' ev /\
    calls_of ev = init_call E (require E item) /\ isolated E ev.
Proof.
  unfold enabled, load. intros HE H Hi.
  destruct (endsWith (js ".js") item); simpl in *; [|discriminate].
  destruct (disabled (heap E (require E item))); [discriminate|].
  rewrite Hi. set (md := require E item).
  change ((modify ?f ≫= ?k) s) with (k tt (f s)). cbv beta.
  change ((modify ?f ≫= ?k) ?s0) with (k tt (f s0)). cbv beta.
  apply delivers_then.
  { unfold init_call. destruct (onInit (heap E md)) as [h|] eqn:Hh.
    - apply (delivers_try_invoke E (CallInit md)). intros w. by apply (HE md).
    - apply delivers_ret. }
  apply delivers_then; [apply delivers_logger_log|].
  apply delivers_then.
  { destruct (aliases (heap E md)); [apply delivers_logger_log|apply delivers_ret]. }
  apply delivers_then; [apply delivers_logger_log|].
  apply delivers_then; [apply delivers_logger_log|].
  apply delivers_ret.
Qed.

Lemma supplies_intents_cons (item : JSString) (listing : list JSString) :
  supplies_intents E (item :: listing) = true ->
  (enabled E item = true -> is_Some (intents (heap E (require E item)))) /\
  supplies_intents E listing = true.
Proof.
  unfold supplies_intents. simpl. intros H.
  apply andb_true_iff in H as [Hi Hl]. split; [|exact Hl].
  intros He. rewrite He in Hi. simpl in Hi. by apply bool_decide_eq_true in Hi.
Qed.

(** The loop over the listing, when every enabled descriptor supplies
    its intents. *)
Lemma load_all (listing : list JSString) :
  throws_loggable E ->
  supplies_intents E listing = true ->
  forall (requested : list Intent) (s : Bot W),
  exists s' ev,
    forEach_with listing (load E) requested s
    = (Ok (foldl (push_new N.eqb) requested (wanted_intents E listing)), s') /\
    config_prefix s' = config_prefix s /\ clientOptions s' = clientOptions s /\
    client s' = client s /\
    mods s' = mods s ++ loaded E listing /\
    cmdMgr s' = foldl (fun r md => register E md r) (cmdMgr s) (loaded E listing) /\
    trace s' = trace s ++ ev /\
    calls_of ev = concat (init_call E <$> loaded E listing) /\
    isolated E ev.
Proof.
  intros HE. induction listing as [|item listing IH]; intros Hs requested s.
  - exists s, []. unfold loaded. simpl. rewrite !app_nil_r.
    split_and!; try reflexivity. constructor.
  - apply supplies_intents_cons in Hs as [Hi Hs]. specialize (IH Hs).
    unfold loaded, wanted_intents, loaded in *. simpl.
    destruct (enabled E item) eqn:He.
    + destruct (Hi eq_refl) as [wanted Hw].
      destruct (load_enabled requested wanted item s HE He Hw)
        as (s1 & ev1 & Hr1 & (Hp1 & Ho1 & Hm1 & Hg1 & Hc1 & Ht1) & Hcalls1 & Hiso1).
      destruct (IH (foldl (push_new N.eqb) requested wanted) s1)
        as (s2 & ev2 & Hr2 & Hp2 & Ho2 & Hc2 & Hm2 & Hg2 & Ht2 & Hcalls2 & Hiso2).
      exists s2, (ev1 ++ ev2). unfold mbind, M_bind. rewrite Hr1, Hr2.
      rewrite fmap_cons. simpl. rewrite Hw. simpl. rewrite foldl_app.
      simpl in Hp1, Ho1, Hm1, Hg1, Hc1, Ht1.
      split_and!.
      * reflexivity.
      * congruence.
      * congruence.
      * congruence.
      * rewrite Hm2, Hm1. by rewrite <- app_assoc.
      * rewrite Hg2, Hg1. reflexivity.
      * rewrite Ht2, Ht1. by rewrite <- app_assoc.
      * rewrite calls_of_app, Hcalls1, Hcalls2. reflexivity.
      * by apply isolated_app.
    + unfold mbind, M_bind. rewrite (load_skip _ _ _ He). apply IH.
Qed.

(** [__init] as a whole, under the same condition and with client
    options in place. *)
Lemma init_run (listing : list JSString) (s : Bot W) (o : ClientOptions)
    (i : IntentsValue) :
  throws_loggable E ->
  supplies_intents E listing = true ->
  clientOptions s = Some o -> co_intents o = Some i ->
  exists s' ev,
    __init E listing s = (Ok tt, s') /\
    config_prefix s' = config_prefix s /\ clientOptions s' = clientOptions s /\
    mods s' = mods s ++ loaded E listing /\
    cmdMgr s' = foldl (fun r md => register E md r) (cmdMgr s) (loaded E listing) /\
    client s' = Some (if toString_nonempty i then i
                      else IntentFlags (foldl (push_new N.eqb) []
                                          (wanted_intents E listing))) /\
    trace s' = trace s ++ ev /\
    calls_of ev = concat (init_call E <$> loaded E listing) /\
    isolated E ev.
Proof.
  intros HE Hs Ho Hi. unfold __init, logger_log.
  change ((modify ?f ≫= ?k) s) with (k tt (f s)). cbv beta.
  destruct (load_all listing HE Hs [] (emit [Logged LevelLog LogPlatform] s))
    as (s1 & ev1 & Hr1 & Hp1 & Ho1 & Hc1 & Hm1 & Hg1 & Ht1 & Hcalls1 & Hiso1).
  simpl in Hp1, Ho1, Hc1, Hm1, Hg1, Ht1.
  unfold mbind, M_bind at 1. rewrite Hr1.
  unfold mbind, M_bind, gets, modify. rewrite Ho1, Ho, Hi. simpl.
  eexists _, ([Logged LevelLog LogPlatform] ++ ev1 ++ [Logged LevelLog _; Logged LevelLog _]).
  split_and!; [reflexivity|done|simpl; congruence|done|done|reflexivity| | |].
  - simpl. rewrite Ht1, <- !app_assoc. reflexivity.
  - simpl. rewrite calls_of_app. simpl. by rewrite app_nil_r.
  - constructor. apply isolated_app; [done|]. repeat constructor.
Qed.


End Startup.

(** ** Disabled mods *)

Section Disabled.

Context {W : Type} (E : Env W).

(** *** Rules for [preserves] *)

Lemma preserves_ret {A} (P : Bot W -> Prop) (a : A) : preserves P (mret a).
Proof. intros s Hs. exact Hs. Qed.

Lemma preserves_throw {A} (P : Bot W -> Prop) (e : Exn) : preserves P (throw (A:=A) e).
Proof. intros s Hs. exact Hs. Qed.

Lemma preserves_gets {A} (P : Bot W -> Prop) (f : Bot W -> A) : preserves P (gets f).
Proof. intros s Hs. exact Hs. Qed.

Lemma preserves_modify (P : Bot W -> Prop) (f : Bot W -> Bot W) :
  (forall s, P s -> P (f s)) -> preserves P (modify f).
Proof. intros Hf s Hs. by apply Hf. Qed.

Lemma preserves_bind {A B} (P : Bot W -> Prop) (c : M A) (k : A -> M B) :
  preserves P c -> (forall a, preserves P (k a)) -> preserves P (c ≫= k).
Proof.
  intros Hc Hk s Hs. specialize (Hc s Hs). unfold mbind, M_bind.
  destruct (c s) as [[a|e] s1]; simpl in *; [by apply Hk|exact Hc].
Qed.

Lemma preserves_try_catch (P : Bot W -> Prop) (body : M unit) (handler : Exn -> M unit) :
  preserves P body -> (forall e, preserves P (handler e)) ->
  preserves P (try_catch body handler).
Proof.
  intros Hb Hh s Hs. specialize (Hb s Hs). unfold try_catch.
  destruct (body s) as [[a|e] s1]; simpl in *; [exact Hb|by apply Hh].
Qed.

Lemma preserves_forEach_with {A B} (P : Bot W -> Prop) (l : list A)
    (callback : B -> A -> M B) (local : B) :
  (forall b x, preserves P (callback b x)) -> preserves P (forEach_with l callback local).
Proof.
  intros Hcb. revert local. induction l as [|x l IH]; intros local; simpl.
  - apply preserves_ret.
  - apply preserves_bind; [apply Hcb|exact IH].
Qed.

(** *** What keeps a mod absent *)

Lemma claim_owner (md owner : ModRef) (reg : gmap JSString ModRef) (keyword k : JSString) :
  claim E md reg keyword !! k = Some owner -> reg !! k = Some owner \/ owner = md.
Proof.
  unfold claim. destruct (reg !! toLocaleLowerCase E keyword); [by left|].
  rewrite lookup_insert. case_decide; [|by left]. intros [= ->]. by right.
Qed.

Lemma register_owner (md owner : ModRef) (reg : gmap JSString ModRef) (k : JSString) :
  register E md reg !! k = Some owner -> reg !! k = Some owner \/ owner = md.
Proof.
  rewrite register_keywords.
  generalize (default [] (aliases (heap E md)) ++ option_list (command (heap E md))).
  intros l. revert reg. induction l as [|kw l IH]; intros reg; simpl; [by left|].
  intros H. apply IH in H as [H|H]; [|by right]. by apply claim_owner in H.
Qed.

Lemma absent_emit_logged (D : ModRef) lvl line (s : Bot W) :
  absent D s -> absent D (emit [Logged lvl line] s).
Proof.
  intros (Hm & Hr & Hc). split_and!; [done|done|]. simpl.
  intros c. rewrite calls_of_app. simpl. rewrite app_nil_r. apply Hc.
Qed.

Lemma absent_log_fault (D : ModRef) (mod_name : JSString) (e : Exn) :
  preserves (W:=W) (absent D) (log_fault mod_name e).
Proof.
  destruct e; simpl; [apply preserves_modify, absent_emit_logged|apply preserves_throw..].
Qed.

Lemma absent_invoke (D : ModRef) (c : Call) (h : W -> W * Completion) :
  call_mod c <> D -> preserves (absent D) (invoke c h).
Proof.
  intros Hne s (Hm & Hr & Hc). unfold invoke.
  destruct (h (world s)) as [w how].
  assert (Ha : absent D (emit [Called c how] (set_world w s))).
  { split_and!; [done|done|]. simpl. intros c'. rewrite calls_of_app. simpl.
    rewrite elem_of_app, list_elem_of_singleton. intros [?| ->]; [by apply Hc|done]. }
  by destruct how.
Qed.

Lemma absent_load (D : ModRef) (requested : list Intent) (item : JSString) :
  disabled (heap E D) = true -> preserves (absent D) (load E requested item).
Proof.
  intros HD. unfold load.
  destruct (endsWith (js ".js") item); simpl; [|apply preserves_ret].
  destruct (disabled (heap E (require E item))) eqn:Hd; [apply preserves_ret|].
  assert (Hne : require E item <> D) by (intros Heq; rewrite Heq in Hd; congruence).
  destruct (intents (heap E (require E item))); [|apply preserves_throw].
  apply preserves_bind.
  { apply preserves_modify. intros s (Hm & Hr & Hc). split_and!; [done| |done].
    simpl. intros k Hk. apply register_owner in Hk as [Hk|Hk]; [by apply (Hr k)|done]. }
  intros _. apply preserves_bind.
  { apply preserves_modify. intros s (Hm & Hr & Hc). split_and!; [|done|done].
    simpl. rewrite elem_of_app, list_elem_of_singleton. intros [?|?]; done. }
  intros _. apply preserves_bind.
  { destruct (onInit (heap E (require E item))); [|apply preserves_ret].
    apply preserves_try_catch; [by apply absent_invoke|].
    intros e. apply absent_log_fault. }
  intros _. apply preserves_bind; [apply preserves_modify, absent_emit_logged|].
  intros _. apply preserves_bind.
  { destruct (aliases (heap E (require E item))); [|apply preserves_ret].
    apply preserves_modify, absent_emit_logged. }
  intros _. apply preserves_bind; [apply preserves_modify, absent_emit_logged|].
  intros _. apply preserves_bind; [apply preserves_modify, absent_emit_logged|].
  intros _. apply preserves_ret.
Qed.

Lemma absent_init (D : ModRef) (listing : list JSString) :
  disabled (heap E D) = true -> preserves (absent D) (__init E listing).
Proof.
  intros HD. unfold __init.
  apply preserves_bind; [apply preserves_modify, absent_emit_logged|].
  intros _. apply preserves_bind.
  { apply preserves_forEach_with. intros b x. by apply absent_load. }
  intros requested. apply preserves_bind; [apply preserves_gets|].
  intros [o|]; [|apply preserves_throw].
  destruct (co_intents o) as [i|]; [|apply preserves_throw].
  apply preserves_bind; [apply preserves_modify, absent_emit_logged|].
  intros _. apply preserves_bind; [apply preserves_modify, absent_emit_logged|].
  intros _. apply preserves_modify. by intros s (Hm & Hr & Hc).
Qed.

(** The loop does not see the files of a disabled mod. *)
Lemma load_all_without (D : ModRef) (listing : list JSString)
    (requested : list Intent) (s : Bot W) :
  disabled (heap E D) = true ->
  forEach_with listing (load E) requested s
  = forEach_with (filter (fun item => require E item <> D) listing) (load E) requested s.
Proof.
  intros HD. revert requested s.
  induction listing as [|item listing IH]; intros requested s; [reflexivity|].
  rewrite filter_cons. case_decide as Hne.
  - simpl. unfold mbind, M_bind.
    destruct (load E requested item s) as [[a|e] s1]; [apply IH|reflexivity].
  - simpl. unfold mbind, M_bind at 1.
    rewrite load_skip; [apply IH|].
    unfold enabled. rewrite Hne, HD. apply andb_false_r.
Qed.

(** C5: let the descriptor [D] have [disabled = true].  Then [__init]
    runs exactly as on the listing without the files of [D], so [D]
    adds nothing to the intents requested from the client; and in the
    state [__init] leaves behind, [D] is not in the mod list, owns no
    keyword of the registry, and none of its handlers, [onInit]
    included, has been called. *)
Theorem disabled_mod_is_skipped (D : ModRef) :
  disabled (heap E D) = true ->
  (forall listing s,
     __init E listing s
     = __init E (filter (fun item => require E item <> D) listing) s) /\
  (forall listing prefix options w,
     absent D (snd (__init E listing (new_bot prefix options w)))).
Proof.
  intros HD. split.
  - intros listing s. unfold __init, mbind, M_bind, logger_log, modify.
    by rewrite (load_all_without D listing [] _ HD).
  - intros listing prefix options w. apply absent_init; [exact HD|].
    split_and!; simpl.
    + apply not_elem_of_nil.
    + intros k. by rewrite lookup_empty.
    + intros c. by intros ?%elem_of_nil.
Qed.

End Disabled.

(** ** Delete events for partials *)

Section Partials.

Context {W : Type} (E : Env W).

Lemma emit_emit (a b : list Event) (s : Bot W) : emit b (emit a s) = emit (a ++ b) s.
Proof. unfold emit. simpl. by rewrite <- app_assoc. Qed.

Lemma emit_nil (s : Bot W) : emit [] s = s.
Proof. destruct s. unfold emit. simpl. by rewrite app_nil_r. Qed.

(** A loop whose body only logs one line for the elements that have a
    handler. *)
Lemma forEach_lines {A H} (l : list A) (callback : A -> M unit) (has : A -> option H)
    (line : A -> Event) (s : Bot W) :
  (forall x s0, callback x s0 = match has x with
                                | Some _ => (Ok tt, emit [line x] s0)
                                | None => (Ok tt, s0)
                                end) ->
  forEach l callback s
  = (Ok tt, emit (line <$> filter (fun x => is_Some (has x)) l) s).
Proof.
  intros Hcb. revert s. induction l as [|x l IH]; intros s; simpl.
  - by rewrite emit_nil.
  - unfold mbind, M_bind. rewrite Hcb, filter_cons.
    destruct (has x) as [h|] eqn:Hx.
    + rewrite decide_True by eauto. rewrite IH, emit_emit. reflexivity.
    + rewrite decide_False by (by intros [? ?]). apply IH.
Qed.

(** A delete event for a partial: reading the content throws inside
    the [try] of every mod that has a handler, so no handler is called
    and each of these mods gets an error line. *)
Lemma onDelete_partial (message : DeletedMessage) (s : Bot W) :
  deleted_content message = None ->
  __onDelete E message s
  = (Ok tt,
     emit ((fun md => Logged LevelError
                        (LogModError (name (heap E md))
                           (TypeError "Cannot read properties of null (reading 'split')")))
             <$> filter (fun md => is_Some (onMsgDelete (heap E md)))
                   (distinct_mods (mods s))) s).
Proof.
  intros Hc. unfold __onDelete.
  change ((gets mods ≫= ?k) s) with (k (mods s) s). cbv beta.
  apply (forEach_lines _ _ (fun md => onMsgDelete (heap E md))). intros md s0.
  destruct (onMsgDelete (heap E md)) as [h|]; [|reflexivity].
  unfold content_split. rewrite Hc. reflexivity.
Qed.

Lemma onDelete_returns (message : DeletedMessage) (s : Bot W) :
  throws_loggable E -> fst (__onDelete E message s) = Ok tt.
Proof.
  intros HE. destruct (deleted_content message) as [text|] eqn:Hc.
  - by rewrite (onDelete_run E message text s HE Hc).
  - by rewrite (onDelete_partial message s Hc).
Qed.

End Partials.

(** ** Intents and optional fields *)

Section Host.

Context {W : Type} (E : Env W).

Lemma toString_empty (i : IntentsValue) : toString_nonempty i = false -> i = IntentFlags [].
Proof. by destruct i as [[|? ?]|]. Qed.


(** C9, amended: a descriptor has to supply its intents (the empty list
    will do).  When every enabled descriptor of the listing does, the
    host has client options with an intents value, and no handler throws
    [undefined] or [null], [__init] returns normally, lists and
    registers every enabled mod, whichever of the primary command, the
    aliases and the four handlers each descriptor supplies; and the
    event entry points return normally from every state, whatever the
    descriptors supply. *)
Theorem optional_fields_may_be_absent (listing : list JSString) (s : Bot W) :
  throws_loggable E ->
  supplies_intents E listing = true ->
  is_Some (clientOptions s ≫= co_intents) ->
  (exists s',
     __init E listing s = (Ok tt, s') /\ mods s' = mods s ++ loaded E listing /\
     cmdMgr s' = foldl (fun r md => register E md r) (cmdMgr s) (loaded E listing)) /\
  (forall message s0, fst (__onMessage E message s0) = Ok tt) /\
  (forall message s0, fst (__onDelete E message s0) = Ok tt) /\
  (forall oldMessage newMessage s0, fst (__onUpdate E oldMessage newMessage s0) = Ok tt).
Proof.
  intros HE Hs [i Hi].
  destruct (clientOptions s) as [o|] eqn:Ho; [|discriminate]. simpl in Hi.
  split_and!.
  - destruct (init_run E listing s o i HE Hs Ho Hi) as (s' & ev & Hr & _ & _ & Hm & Hg & _).
    by exists s'.
  - intros message s0.
    by destruct (onMessage_isolates E message s0 HE) as (s' & ev & -> & _).
  - intros message s0. by apply onDelete_returns.
  - intros oldMessage newMessage s0. by rewrite (onUpdate_run E _ _ _ HE).
Qed.

(** After [__init], the mod list is the enabled mods in load order; it
    names no mod twice when no file is listed twice and distinct files
    export distinct objects. *)
Lemma init_lists_each_mod_once (listing : list JSString) (s : Bot W) :
  throws_loggable E ->
  supplies_intents E listing = true -> is_Some (clientOptions s ≫= co_intents) ->
  mods s = [] -> NoDup listing ->
  (forall a b, a ∈ listing -> b ∈ listing -> require E a = require E b -> a = b) ->
  exists s', __init E listing s = (Ok tt, s') /\ mods s' = loaded E listing /\ NoDup (mods s').
Proof.
  intros HE Hs [i Hi] Hm Hl Hinj.
  destruct (clientOptions s) as [o|] eqn:Ho; [|discriminate]. simpl in Hi.
  destruct (init_run E listing s o i HE Hs Ho Hi) as (s' & ev & Hr & _ & _ & Hm' & _).
  rewrite Hm in Hm'. simpl in Hm'. exists s'. split_and!; [done|done|].
  rewrite Hm'. unfold loaded. apply NoDup_fmap_2_strong.
  - intros a b Ha Hb. apply Hinj.
    + apply list_elem_of_In, filter_In in Ha as [Ha _]. by apply list_elem_of_In.
    + apply list_elem_of_In, filter_In in Hb as [Hb _]. by apply list_elem_of_In.
  - apply NoDup_ListNoDup, List.NoDup_filter. by apply NoDup_ListNoDup.
Qed.

End Host.

(** ** The concrete host at work *)

Example split_two_runs :
  split (js "mute  @user now") = [js "mute"; js "@user"; js "now"].
Proof. reflexivity. Qed.

Example split_keeps_edges : split (js " a ") = [[]; js "a"; []].
Proof. reflexivity. Qed.

Example trim_then_split_empty : split (trim (js "   ")) = [[]].
Proof. reflexivity. Qed.

Example demo_bot_mods : mods demo_bot = [0; 1; 2; 5]%nat.
Proof. vm_compute. reflexivity. Qed.

Example demo_bot_resolves_command :
  getMod demo (js "VoteMute") (cmdMgr demo_bot) = Some 0%nat.
Proof. vm_compute. reflexivity. Qed.

(** The handlers of the concrete host throw error objects only. *)
Lemma demo_throws_loggable : throws_loggable demo.
Proof.
  intros md. destruct md as [|[|[|[|[|md]]]]]; simpl; split_and!; intros; simplify_eq;
    reflexivity.
Defined.

(** C1, as stated, fails: after the prefix, [multiline] reads [vm], a
    line feed and [@user].  Its first whitespace-separated token is
    [vm], which resolves to mod [0]; yet [__onMessage] takes the whole
    text for the keyword, finds no owner and calls every mod's handler
    with [args = undefined]. *)
Lemma line_feed_does_not_end_the_keyword :
  whitespace_tokens (trim (js "vm" ++ [10] ++ js "@user")) = [js "vm"; js "@user"] /\
  getMod demo (ascii_lower (js "vm")) (cmdMgr demo_bot) = Some 0%nat /\
  split (trim (js "vm" ++ [10] ++ js "@user")) = [js "vm" ++ [10] ++ js "@user"] /\
  calls_of (trace (snd (__onMessage demo multiline demo_bot)))
  = [CallMsgCreate 0 multiline None; CallMsgCreate 1 multiline None;
     CallMsgCreate 2 multiline None].
Proof. vm_compute. repeat split. Qed.

Lemma resolved_command_witness :
  exists s' ev,
    __onMessage demo (text "!VM @user  now") demo_bot = (Ok tt, s') /\
    extends demo_bot s' ev /\
    calls_of ev = [CallMsgCreate 0 (text "!VM @user  now") (Some [js "@user"; js "now"])] /\
    world s' = [0%nat].
Proof.
  destruct (resolved_command_goes_to_its_mod_only demo (text "!VM @user  now") demo_bot
              (js "VM @user  now") (js "VM") [js "@user"; js "now"] 0%nat
              eq_refl eq_refl eq_refl)
    as (r & s' & ev & Hr & He & Hc & Hw & Hok).
  rewrite (Hok eq_refl) in Hr. by exists s', ev.
Defined.




Lemma command_without_handler_witness :
  __onMessage demo (text "!silent now") demo_bot = (Ok tt, demo_bot).
Proof.
  exact (command_without_handler_is_dropped demo (text "!silent now") demo_bot
           (js "silent now") (js "silent") [js "now"] 5%nat
           eq_refl eq_refl eq_refl eq_refl).
Defined.

Lemma alias_witness :
  getMod demo (js "vm") (register demo 2%nat (register demo 0%nat ∅)) = Some 0%nat.
Proof.
  refine (proj1 (alias_is_not_taken_by_later_command demo 0%nat 2%nat (js "vm") ∅
                   _ eq_refl eq_refl)).
  simpl. apply list_elem_of_singleton. reflexivity.
Defined.

Lemma disabled_mod_witness :
  __init demo demo_listing demo_new
  = __init demo (filter (fun item => require demo item <> 3%nat) demo_listing) demo_new /\
  absent 3%nat (snd (__init demo demo_listing demo_new)).
Proof.
  destruct (disabled_mod_is_skipped demo 3%nat eq_refl) as [Hsame Habsent].
  split; [apply Hsame|].
  apply (Habsent demo_listing (js "!") (Some {| co_intents := Some (IntentFlags []) |}) []).
Defined.

(** C6 fails on the code.  [crasher], listed first, throws [undefined]
    from its message handler.  The catch block reads the [stack] of the
    thrown value, which throws a [TypeError] that leaves [__onMessage]:
    nothing is logged, and the handler of [volume], listed after it, is
    never called. *)
Lemma undefined_throw_leaves_the_entry_point :
  mods faulty_bot = [6; 2]%nat /\
  ((fun h => snd (h (text "hello") None [])) <$> onMsgCreate (heap faulty 6%nat))
  = Some (Abrupt Undefined) /\
  is_Some (onMsgCreate (heap faulty 2%nat)) /\
  fst (__onMessage faulty (text "hello") faulty_bot)
  = Throw (TypeError "Cannot read properties of undefined (reading 'stack')") /\
  trace (snd (__onMessage faulty (text "hello") faulty_bot))
  = [Called (CallMsgCreate 6 (text "hello") None) (Abrupt Undefined)] /\
  world (snd (__onMessage faulty (text "hello") faulty_bot)) = [6%nat].
Proof. vm_compute. split_and!; try reflexivity. by eexists. Qed.





(** C9, as stated, fails: [bare] supplies no intents, and [__init]
    throws a [TypeError] when it reaches it; the mod listed after it is
    not loaded and no client is created. *)
Lemma descriptor_without_intents_stops_init :
  intents (heap demo (require demo (js "bare.js"))) = None /\
  fst (__init demo [js "votemute.js"; js "bare.js"; js "audit.js"] demo_new)
  = Throw (TypeError "Cannot read properties of undefined (reading 'forEach')") /\
  mods (snd (__init demo [js "votemute.js"; js "bare.js"; js "audit.js"] demo_new))
  = [0%nat] /\
  client (snd (__init demo [js "votemute.js"; js "bare.js"; js "audit.js"] demo_new))
  = None.
Proof. vm_compute. repeat split. Qed.

Lemma optional_fields_witness :
  (exists s', __init demo demo_listing demo_new = (Ok tt, s') /\
              mods s' = mods demo_new ++ loaded demo demo_listing /\
              cmdMgr s' = foldl (fun r md => register demo md r) (cmdMgr demo_new)
                            (loaded demo demo_listing)) /\
  fst (__onMessage demo (text "!silent") demo_bot) = Ok tt.
Proof.
  assert (Ho : is_Some (clientOptions demo_new ≫= co_intents)) by (by eexists).
  destruct (optional_fields_may_be_absent demo demo_listing demo_new
              demo_throws_loggable eq_refl Ho)
    as (Hinit & Hmsg & _).
  split; [exact Hinit|apply Hmsg].
Defined.

(** ** More on splitting and trimming *)

Section Tokens.

Variable sep : N -> bool.

Lemma split_runs_concat (in_run : bool) (cur s : JSString) :
  (in_run = true -> cur = []) ->
  concat (split_runs sep in_run cur s) = cur ++ List.filter (fun c => negb (sep c)) s.
Proof.
  revert in_run cur. induction s as [|c s IH]; intros in_run cur Hrun; simpl.
  - reflexivity.
  - destruct (sep c) eqn:Hc; simpl.
    + destruct in_run.
      * rewrite IH by done. by rewrite (Hrun eq_refl).
      * simpl. by rewrite IH.
    + rewrite IH by done. by rewrite <- app_assoc.
Qed.

Lemma split_runs_without_sep (in_run : bool) (cur s : JSString) :
  Forall (fun c => sep c = false) cur ->
  Forall (Forall (fun c => sep c = false)) (split_runs sep in_run cur s).
Proof.
  revert in_run cur. induction s as [|c s IH]; intros in_run cur Hcur; simpl.
  - by constructor.
  - destruct (sep c) eqn:Hc.
    + destruct in_run; [by apply IH|]. constructor; [done|by apply IH].
    + apply IH. apply Forall_app. split; [done|by constructor].
Qed.

Lemma ends_in_token_tail (c : N) (s : JSString) :
  ends_in_token sep (c :: s) -> ends_in_token sep s /\ (s = [] -> sep c = false).
Proof.
  unfold ends_in_token. destruct s as [|d s]; simpl; [done|].
  intros H. split; [exact H|discriminate].
Qed.

Lemma split_runs_pieces (s : JSString) :
  ends_in_token sep s ->
  (forall cur, cur <> [] -> Forall (fun t => t <> []) (split_runs sep false cur s)) /\
  (s <> [] -> Forall (fun t => t <> []) (split_runs sep true [] s)).
Proof.
  induction s as [|c s IH]; intros Hend.
  - split; [|done]. intros cur Hcur. simpl. by repeat constructor.
  - apply ends_in_token_tail in Hend as [Hend Hlast].
    destruct (IH Hend) as [IHfalse IHtrue]. simpl.
    destruct (sep c) eqn:Hc.
    + assert (Hs : s <> []) by (intros Hs; specialize (Hlast Hs); congruence).
      split; [|intros _; by apply IHtrue].
      intros cur Hcur. constructor; [done|by apply IHtrue].
    + split; [intros cur Hcur|intros _]; apply IHfalse; [by destruct cur|done].
Qed.

End Tokens.

Lemma isSpace_isWhiteSpace (c : N) : isSpace c = true -> isWhiteSpace c = true.
Proof. unfold isSpace. intros ->%N.eqb_eq. reflexivity. Qed.

Lemma trimStart_head (s : JSString) (c : N) (t : JSString) :
  trimStart s = c :: t -> isWhiteSpace c = false.
Proof.
  induction s as [|d s IH]; simpl; [discriminate|].
  destruct (isWhiteSpace d) eqn:Hd; [exact IH|]. by intros [= <- _].
Qed.

Lemma trimStart_snoc (l : JSString) (c : N) :
  isWhiteSpace c = false -> exists x, trimStart (l ++ [c]) = x ++ [c].
Proof.
  intros Hc. induction l as [|a l IH]; simpl.
  - rewrite Hc. by exists [].
  - destruct (isWhiteSpace a); [exact IH|]. by exists (a :: l).
Qed.

(** A trimmed text is empty, or both its first and its last code unit
    are no whitespace. *)
Lemma trim_ends (s : JSString) :
  trim s = [] \/
  exists c t d, trim s = c :: t /\ isWhiteSpace c = false /\
                last (trim s) = Some d /\ isWhiteSpace d = false.
Proof.
  unfold trim, trimEnd.
  destruct (trimStart s) as [|c t] eqn:Ht; [by left|].
  pose proof (trimStart_head _ _ _ Ht) as Hc.
  simpl rev. destruct (trimStart_snoc (rev t) c Hc) as [x Hx].
  destruct (trimStart (rev t ++ [c])) as [|d r] eqn:Hr.
  { by destruct x. }
  right. pose proof (trimStart_head _ _ _ Hr) as Hd.
  exists c, (rev x), d. split_and!; [|done| |done].
  - rewrite Hx. by rewrite rev_app_distr.
  - simpl. by rewrite last_snoc.
Qed.

Lemma trimStart_whitespace (a b : JSString) :
  forallb isWhiteSpace a = true -> trimStart (a ++ b) = trimStart b.
Proof.
  induction a as [|c a IH]; simpl; [done|].
  intros [Hc Ha]%andb_true_iff. rewrite Hc. by apply IH.
Qed.

Lemma trimStart_app (a b : JSString) :
  trimStart (a ++ b) = match trimStart a with
                       | [] => trimStart b
                       | _ :: _ => trimStart a ++ b
                       end.
Proof.
  induction a as [|c a IH]; simpl; [reflexivity|].
  destruct (isWhiteSpace c); [exact IH|reflexivity].
Qed.

Lemma forallb_rev {A} (f : A -> bool) (l : list A) :
  forallb f l = true -> forallb f (rev l) = true.
Proof.
  rewrite !forallb_forall. intros H x Hx. apply H. by apply in_rev.
Qed.

Lemma trimEnd_whitespace (a b : JSString) :
  forallb isWhiteSpace b = true -> trimEnd (a ++ b) = trimEnd a.
Proof.
  intros Hb. unfold trimEnd. rewrite rev_app_distr.
  by rewrite trimStart_whitespace by by apply forallb_rev.
Qed.

Lemma trim_whitespace_around (ws s ws' : JSString) :
  forallb isWhiteSpace ws = true -> forallb isWhiteSpace ws' = true ->
  trim (ws ++ s ++ ws') = trim s.
Proof.
  intros Hw Hw'. unfold trim. rewrite trimStart_whitespace by done.
  rewrite trimStart_app. destruct (trimStart s) as [|c t] eqn:Hs.
  - rewrite <- (app_nil_r ws'), trimStart_whitespace by done. reflexivity.
  - by apply trimEnd_whitespace.
Qed.

(** The tokens after the keyword are never empty and hold no space. *)
Lemma arguments_are_tokens (text first : JSString) (arg : list JSString) :
  split (trim text) = first :: arg ->
  Forall (fun a => a <> [] /\ 32 ∉ a) arg.
Proof.
  intros Hs.
  assert (Hn : Forall (Forall (fun c => isSpace c = false)) (split (trim text))).
  { apply split_runs_without_sep. constructor. }
  assert (He : trim text = [] \/ Forall (fun t => t <> []) (split (trim text))).
  { destruct (trim_ends text) as [?|(c & t & d & Hc & Hcw & Hl & Hdw)]; [by left|right].
    assert (Hend : ends_in_token isSpace (trim text)).
    { unfold ends_in_token. rewrite Hl.
      destruct (isSpace d) eqn:Hd; [|done]. apply isSpace_isWhiteSpace in Hd. congruence. }
    rewrite Hc in Hend |- *. unfold split. simpl.
    destruct (isSpace c) eqn:Hcs; [apply isSpace_isWhiteSpace in Hcs; congruence|].
    apply ends_in_token_tail in Hend as [Hend _].
    by apply (split_runs_pieces isSpace t Hend). }
  rewrite Hs in Hn. apply Forall_cons in Hn as [_ Hn].
  destruct He as [He|He].
  - rewrite He in Hs. injection Hs as _ <-. constructor.
  - rewrite Hs in He. apply Forall_cons in He as [_ He].
    rewrite Forall_forall in *. intros a Ha. split; [by apply He|].
    intros H32. specialize (Hn a Ha). rewrite Forall_forall in Hn.
    by specialize (Hn 32 H32).
Qed.

(** X1: [split] always yields at least one token, no token holds a
    space, and the tokens put end to end are the text without its
    spaces: splitting loses nothing else. *)
Theorem split_loses_only_spaces (s : JSString) :
  split s <> [] /\
  Forall (fun t => 32 ∉ t) (split s) /\
  concat (split s) = List.filter (fun c => negb (isSpace c)) s.
Proof.
  split_and!.
  - apply split_runs_nonempty.
  - pose proof (split_runs_without_sep isSpace false [] s (Forall_nil_2 _)) as H.
    eapply Forall_impl; [exact H|]. intros t Ht H32.
    rewrite Forall_forall in Ht. by specialize (Ht 32 H32).
  - unfold split. by rewrite split_runs_concat.
Qed.

(** X3: whitespace between the prefix and the keyword and whitespace at
    the end of the message change neither the keyword nor the
    arguments. *)
Theorem whitespace_around_command_is_ignored (p ws rest ws' : JSString) :
  forallb isWhiteSpace ws = true ->
  forallb isWhiteSpace ws' = true ->
  split (trim (replace p [] (p ++ ws ++ rest ++ ws')))
  = split (trim (replace p [] (p ++ rest))).
Proof.
  intros Hw Hw'. rewrite !replace_prefix. by rewrite trim_whitespace_around.
Qed.

(** ** More on the entry points *)

Section Events.

Context {W : Type} (E : Env W).

Lemma preserves_forEach {A} (P : Bot W -> Prop) (l : list A) (callback : A -> M unit) :
  (forall x, preserves P (callback x)) -> preserves P (forEach l callback).
Proof.
  intros Hcb. induction l as [|x l IH]; simpl.
  - apply preserves_ret.
  - apply preserves_bind; [apply Hcb|intros _; exact IH].
Qed.

Lemma since_refl (s0 : Bot W) : since s0 hands_only_tokens s0.
Proof. exists []. split; [by rewrite app_nil_r|]. by intros c args ?%elem_of_nil. Qed.

Lemma since_logged (s0 : Bot W) lvl line (s : Bot W) :
  since s0 hands_only_tokens s -> since s0 hands_only_tokens (emit [Logged lvl line] s).
Proof.
  intros (ev & Ht & Hev). exists (ev ++ [Logged lvl line]). split.
  - simpl. by rewrite Ht, <- app_assoc.
  - intros c args. rewrite calls_of_app. simpl. rewrite app_nil_r. apply Hev.
Qed.

Lemma since_log_fault (s0 : Bot W) (mod_name : JSString) (e : Exn) :
  preserves (since s0 hands_only_tokens) (log_fault mod_name e).
Proof.
  destruct e; simpl; [apply preserves_modify; intros s; apply since_logged
                     |apply preserves_throw..].
Qed.

Lemma since_invoke (s0 : Bot W) (c : Call) (h : W -> W * Completion) :
  (forall args, call_tokens c = Some args -> Forall (fun a => a <> [] /\ 32 ∉ a) args) ->
  preserves (since s0 hands_only_tokens) (invoke c h).
Proof.
  intros Hc s (ev & Ht & Hev). unfold invoke. destruct (h (world s)) as [w how].
  assert (Hs : since s0 hands_only_tokens (emit [Called c how] (set_world w s))).
  { exists (ev ++ [Called c how]). split.
    - simpl. by rewrite Ht, <- app_assoc.
    - intros c' args. rewrite calls_of_app. simpl.
      rewrite elem_of_app, list_elem_of_singleton. intros [?| ->]; [by apply Hev|apply Hc]. }
  by destruct how.
Qed.

Lemma since_forEach_onMsgCreate (s0 : Bot W) (message : Message) :
  preserves (since s0 hands_only_tokens) (forEach_onMsgCreate E message).
Proof.
  unfold forEach_onMsgCreate. apply preserves_bind; [apply preserves_gets|].
  intros l. apply preserves_forEach. intros md.
  apply preserves_try_catch; [|apply since_log_fault].
  destruct (onMsgCreate (heap E md)); [|apply preserves_ret].
  apply since_invoke. discriminate.
Qed.

Lemma since_onMessage (s0 : Bot W) (message : Message) :
  preserves (since s0 hands_only_tokens) (__onMessage E message).
Proof.
  unfold __onMessage. apply preserves_bind; [apply preserves_gets|]. intros prefix.
  destruct (negb (startsWith prefix (content message))); [apply since_forEach_onMsgCreate|].
  destruct (shift_split (trim (replace prefix [] (content message))))
    as (first & arg & Hs & ->).
  apply preserves_bind; [apply preserves_gets|]. intros [md|];
    [|apply since_forEach_onMsgCreate].
  destruct (onMsgCreate (heap E md)); [|apply preserves_ret].
  apply preserves_try_catch; [|apply since_log_fault].
  apply since_invoke. intros args [= <-]. by eapply arguments_are_tokens.
Qed.

(** X2: whatever the message, the state and the handlers, and however
    the run ends, [__onMessage] never hands a handler an empty argument
    or one that holds a space: every token list it passes is made of
    tokens of the trimmed text. *)
Theorem command_arguments_are_never_empty (message : Message) (s : Bot W) :
  exists ev,
    trace (snd (__onMessage E message s)) = trace s ++ ev /\
    forall c args, c ∈ calls_of ev -> call_tokens c = Some args ->
                   Forall (fun a => a <> [] /\ 32 ∉ a) args.
Proof. apply (since_onMessage s message s), since_refl. Qed.

(** X4: when no handler throws [undefined] or [null], the handlers of
    one event run one after the other on the state outside the host:
    each starts from what the handler before it left, also when that
    one threw an error, and the entry point ends in the state the last
    one left. *)
Theorem handlers_act_in_turn
    (message : Message) (deleted : DeletedMessage) (text : JSString)
    (oldMessage newMessage : Message) (s : Bot W) :
  throws_loggable E ->
  deleted_content deleted = Some text ->
  world (snd (forEach_onMsgCreate E message s))
  = after_handlers (fun md => (fun h => h message None) <$> onMsgCreate (heap E md))
      (mods s) (world s) /\
  world (snd (__onDelete E deleted s))
  = after_handlers (fun md => (fun h => h deleted (split text)) <$> onMsgDelete (heap E md))
      (distinct_mods (mods s)) (world s) /\
  world (snd (__onUpdate E oldMessage newMessage s))
  = after_handlers (fun md => (fun h => h oldMessage newMessage) <$> onMsgUpdate (heap E md))
      (distinct_mods (mods s)) (world s).
Proof.
  intros HE Hc. split_and!.
  - rewrite (forEach_onMsgCreate_run E message s HE). apply handlers_run_world.
  - rewrite (onDelete_run E deleted text s HE Hc). apply handlers_run_world.
  - rewrite (onUpdate_run E oldMessage newMessage s HE). apply handlers_run_world.
Qed.


(** X16: a delete event for a partial, whose content is [null], calls
    no handler.  Reading the content throws inside the [try] of every
    mod that has an [onMsgDelete] handler, so each of these mods gets an
    error line with its name, the state outside the host is untouched,
    and [__onDelete] returns normally. *)
Theorem delete_of_partial_calls_no_handler (message : DeletedMessage) (s : Bot W) :
  deleted_content message = None ->
  exists s' ev,
    __onDelete E message s = (Ok tt, s') /\ extends s s' ev /\
    world s' = world s /\ calls_of ev = [] /\
    ev = (fun md => Logged LevelError
                      (LogModError (name (heap E md))
                         (TypeError "Cannot read properties of null (reading 'split')")))
           <$> filter (fun md => is_Some (onMsgDelete (heap E md))) (distinct_mods (mods s)).
Proof.
  intros Hc. rewrite (onDelete_partial E message s Hc).
  eexists _, _. split_and!; [reflexivity|by unfold extends|reflexivity| |reflexivity].
  induction (filter _ _) as [|md l IH]; [reflexivity|exact IH].
Qed.

End Events.

(** ** More on the guarded push *)

Section PushNewOrder.

Context {A : Type} (eqb : A -> A -> bool).
Hypothesis eqb_spec : forall a b, eqb a b = true <-> a = b.


Lemma foldl_push_new_fresh (l a : list A) :
  NoDup (a ++ l) -> foldl (push_new eqb) a l = a ++ l.
Proof.
  revert a. induction l as [|x l IH]; intros a Hnd; simpl; [by rewrite app_nil_r|].
  assert (Hx : push_new eqb a x = a ++ [x]).
  { unfold push_new. destruct (includes eqb x a) eqn:Hi; [|reflexivity].
    apply (includes_spec eqb eqb_spec) in Hi.
    apply NoDup_app in Hnd as (_ & Hd & _). exfalso. apply (Hd x Hi). by left. }
  rewrite Hx, IH; rewrite <- app_assoc; [reflexivity|exact Hnd].
Qed.

Lemma foldl_push_new_extends (l a : list A) :
  exists extra, foldl (push_new eqb) a l = a ++ extra.
Proof.
  revert a. induction l as [|x l IH]; intros a; simpl; [exists []; by rewrite app_nil_r|].
  unfold push_new at 2. destruct (includes eqb x a); [apply IH|].
  destruct (IH (a ++ [x])) as [extra ->]. exists (x :: extra). by rewrite <- app_assoc.
Qed.

End PushNewOrder.


Section Duplicates.

Context {W : Type} (E : Env W).


(** X11: when the mod list names no mod twice, as after one start-up
    from distinct files, and no handler throws [undefined] or [null],
    the copy [__onDelete] and [__onUpdate] build is
    the list itself, so both call the handlers in load order, like
    message-create does. *)
Theorem delete_and_update_follow_load_order
    (message : DeletedMessage) (text : JSString) (oldMessage newMessage : Message)
    (s : Bot W) :
  throws_loggable E ->
  deleted_content message = Some text ->
  NoDup (mods s) ->
  distinct_mods (mods s) = mods s /\
  (exists s' ev,
     __onDelete E message s = (Ok tt, s') /\ trace s' = trace s ++ ev /\
     calls_of ev = (fun md => CallMsgDelete md message (split text))
                     <$> filter (fun md => is_Some (onMsgDelete (heap E md))) (mods s)) /\
  (exists s' ev,
     __onUpdate E oldMessage newMessage s = (Ok tt, s') /\ trace s' = trace s ++ ev /\
     calls_of ev = (fun md => CallMsgUpdate md oldMessage newMessage)
                     <$> filter (fun md => is_Some (onMsgUpdate (heap E md))) (mods s)).
Proof.
  intros HE Hc' Hnd.
  assert (Hd : distinct_mods (mods s) = mods s).
  { unfold distinct_mods. by rewrite (foldl_push_new_fresh _ Nat.eqb_eq). }
  split_and!; [exact Hd| |].
  - destruct (onDelete_delivers E message text s HE Hc') as (s' & ev & Hr & He & _ & Hc & _).
    exists s', ev. split_and!; [exact Hr|apply He|]. by rewrite Hc, Hd.
  - destruct (onUpdate_delivers E oldMessage newMessage s HE)
      as (s' & ev & Hr & He & _ & Hc & _).
    exists s', ev. split_and!; [exact Hr|apply He|]. by rewrite Hc, Hd.
Qed.

End Duplicates.

(** ** More on the start-up phase *)

Section Loading.

Context {W : Type} (E : Env W).

Lemma forEach_with_app {A B} (a b : list A) (callback : B -> A -> M B) (local : B)
    (s : Bot W) :
  forEach_with (a ++ b) callback local s
  = match forEach_with a callback local s with
    | (Ok local', s') => forEach_with b callback local' s'
    | (Throw e, s') => (Throw e, s')
    end.
Proof.
  revert local s. induction a as [|x a IH]; intros local s; simpl; [reflexivity|].
  unfold mbind, M_bind. destruct (callback local x s) as [[l1|e] s1]; [apply IH|reflexivity].
Qed.

Lemma loaded_app (a b : list JSString) : loaded E (a ++ b) = loaded E a ++ loaded E b.
Proof. unfold loaded. by rewrite List.filter_app, fmap_app. Qed.

Lemma wanted_intents_app (a b : list JSString) :
  wanted_intents E (a ++ b) = wanted_intents E a ++ wanted_intents E b.
Proof. unfold wanted_intents. by rewrite loaded_app, fmap_app, concat_app. Qed.

Lemma supplies_intents_app (a b : list JSString) :
  supplies_intents E (a ++ b) = true ->
  supplies_intents E a = true /\ supplies_intents E b = true.
Proof. unfold supplies_intents. rewrite forallb_app. apply andb_true_iff. Qed.

(** The loop passes over what is no JavaScript file. *)
Lemma load_all_js (listing : list JSString) (requested : list Intent) (s : Bot W) :
  forEach_with listing (load E) requested s
  = forEach_with (List.filter (endsWith (js ".js")) listing) (load E) requested s.
Proof.
  revert requested s. induction listing as [|item listing IH]; intros requested s;
    [reflexivity|].
  simpl. destruct (endsWith (js ".js") item) eqn:Hjs; simpl; unfold mbind, M_bind.
  - destruct (load E requested item s) as [[a|e] s1]; [apply IH|reflexivity].
  - rewrite load_skip; [apply IH|]. unfold enabled. by rewrite Hjs.
Qed.

(** [__init] when the host has no client options. *)
Lemma init_run_no_options (listing : list JSString) (s : Bot W) :
  throws_loggable E ->
  supplies_intents E listing = true -> clientOptions s = None ->
  exists s' ev,
    __init E listing s
    = (Throw (TypeError "Cannot read properties of undefined (reading 'intents')"), s') /\
    mods s' = mods s ++ loaded E listing /\
    cmdMgr s' = foldl (fun r md => register E md r) (cmdMgr s) (loaded E listing) /\
    client s' = client s /\
    trace s' = trace s ++ ev /\
    calls_of ev = concat (init_call E <$> loaded E listing) /\
    isolated E ev.
Proof.
  intros HE Hs Ho. unfold __init, logger_log.
  change ((modify ?f ≫= ?k) s) with (k tt (f s)). cbv beta.
  destruct (load_all E listing HE Hs [] (emit [Logged LevelLog LogPlatform] s))
    as (s1 & ev1 & Hr1 & Hp1 & Ho1 & Hc1 & Hm1 & Hg1 & Ht1 & Hcalls1 & Hiso1).
  simpl in Hp1, Ho1, Hc1, Hm1, Hg1, Ht1.
  unfold mbind, M_bind at 1. rewrite Hr1.
  unfold mbind, M_bind, gets. rewrite Ho1, Ho.
  exists s1, ([Logged LevelLog LogPlatform] ++ ev1).
  split_and!; [reflexivity|done|done|done| |done|].
  - rewrite Ht1, <- app_assoc. reflexivity.
  - constructor. exact Hiso1.
Qed.

(** X6: what is no JavaScript file in the mods directory is passed
    over: [__init] runs exactly as on the listing with only the files
    whose name ends in [.js]. *)
Theorem only_js_files_are_loaded (listing : list JSString) (s : Bot W) :
  __init E listing s = __init E (List.filter (endsWith (js ".js")) listing) s.
Proof.
  unfold __init, mbind, M_bind, logger_log, modify.
  by rewrite (load_all_js listing [] _).
Qed.

(** X7: a host without client options cannot finish its start-up.
    When no [onInit] handler throws [undefined] or [null], [__init]
    loads, registers and initialises every enabled mod and then throws
    a [TypeError] where it reads the options' intents; no client is
    created. *)
Theorem init_without_client_options_throws (listing : list JSString) (s : Bot W) :
  throws_loggable E ->
  supplies_intents E listing = true ->
  clientOptions s = None ->
  exists s' ev,
    __init E listing s
    = (Throw (TypeError "Cannot read properties of undefined (reading 'intents')"), s') /\
    mods s' = mods s ++ loaded E listing /\
    cmdMgr s' = foldl (fun r md => register E md r) (cmdMgr s) (loaded E listing) /\
    client s' = client s /\
    trace s' = trace s ++ ev /\
    calls_of ev = concat (init_call E <$> loaded E listing).
Proof.
  intros HE Hs Ho.
  destruct (init_run_no_options listing s HE Hs Ho)
    as (s' & ev & Hr & Hm & Hg & Hc & Ht & Hcalls & _).
  by exists s', ev.
Qed.

(** X8: start-up stops at the first enabled mod that supplies no
    intents, when no [onInit] handler throws [undefined] or [null].
    The mods listed before it are loaded, registered and
    initialised; the mod itself and everything listed after it are not,
    whatever follows; and no client is created. *)
Theorem init_stops_at_mod_without_intents
    (before after : list JSString) (item : JSString) (s : Bot W) :
  throws_loggable E ->
  supplies_intents E before = true ->
  enabled E item = true ->
  intents (heap E (require E item)) = None ->
  exists s' ev,
    __init E (before ++ item :: after) s
    = (Throw (TypeError "Cannot read properties of undefined (reading 'forEach')"), s') /\
    mods s' = mods s ++ loaded E before /\
    cmdMgr s' = foldl (fun r md => register E md r) (cmdMgr s) (loaded E before) /\
    client s' = client s /\
    trace s' = trace s ++ ev /\
    calls_of ev = concat (init_call E <$> loaded E before).
Proof.
  intros HE Hs He Hi. unfold __init, logger_log.
  change ((modify ?f ≫= ?k) s) with (k tt (f s)). cbv beta.
  destruct (load_all E before HE Hs [] (emit [Logged LevelLog LogPlatform] s))
    as (s1 & ev1 & Hr1 & Hp1 & Ho1 & Hc1 & Hm1 & Hg1 & Ht1 & Hcalls1 & Hiso1).
  simpl in Hp1, Ho1, Hc1, Hm1, Hg1, Ht1.
  unfold mbind, M_bind at 1. rewrite forEach_with_app, Hr1. simpl.
  unfold mbind, M_bind at 1. rewrite (load_without_intents E _ _ _ He Hi).
  exists s1, ([Logged LevelLog LogPlatform] ++ ev1).
  split_and!; [reflexivity|done|done|done| |done].
  rewrite Ht1, <- app_assoc. reflexivity.
Qed.

(** X9: [__init] adds to what is there.  When no [onInit] handler
    throws [undefined] or [null], run a second time on the same
    listing, it calls every [onInit] handler again, lists every mod a
    second time, and creates a client with the same intents. *)
Theorem second_init_lists_every_mod_twice
    (listing : list JSString) (s : Bot W) (o : ClientOptions) (i : IntentsValue) :
  throws_loggable E ->
  supplies_intents E listing = true ->
  clientOptions s = Some o ->
  co_intents o = Some i ->
  exists s1 s2 ev,
    __init E listing s = (Ok tt, s1) /\
    __init E listing s1 = (Ok tt, s2) /\
    mods s2 = mods s ++ loaded E listing ++ loaded E listing /\
    client s2 = client s1 /\
    trace s2 = trace s1 ++ ev /\
    calls_of ev = concat (init_call E <$> loaded E listing).
Proof.
  intros HE Hs Ho Hi.
  destruct (init_run E listing s o i HE Hs Ho Hi)
    as (s1 & ev1 & Hr1 & _ & Ho1 & Hm1 & _ & Hc1 & _).
  assert (Ho' : clientOptions s1 = Some o) by congruence.
  destruct (init_run E listing s1 o i HE Hs Ho' Hi)
    as (s2 & ev2 & Hr2 & _ & _ & Hm2 & _ & Hc2 & Ht2 & Hcalls2 & _).
  exists s1, s2, ev2. split_and!; [done|done| |congruence|done|done].
  rewrite Hm2, Hm1. by rewrite <- app_assoc.
Qed.

(** X12: with the empty array for intents in the client options, and
    when no [onInit] handler throws [undefined] or [null], listing more
    files only adds to the end of the intents requested: those requested for a
    listing come first, in the same order, in those requested for any
    longer listing. *)
Theorem more_mods_only_append_intents
    (listing more : list JSString) (s : Bot W) (o : ClientOptions) :
  throws_loggable E ->
  supplies_intents E (listing ++ more) = true ->
  clientOptions s = Some o ->
  co_intents o = Some (IntentFlags []) ->
  exists s1 s2 requested extra,
    __init E listing s = (Ok tt, s1) /\ client s1 = Some (IntentFlags requested) /\
    __init E (listing ++ more) s = (Ok tt, s2) /\
    client s2 = Some (IntentFlags (requested ++ extra)).
Proof.
  intros HE Hs Ho Hi. pose proof (supplies_intents_app _ _ Hs) as [Hs1 _].
  destruct (init_run E listing s o _ HE Hs1 Ho Hi)
    as (s1 & ev1 & Hr1 & _ & _ & _ & _ & Hc1 & _).
  destruct (init_run E (listing ++ more) s o _ HE Hs Ho Hi)
    as (s2 & ev2 & Hr2 & _ & _ & _ & _ & Hc2 & _).
  simpl in Hc1, Hc2.
  rewrite wanted_intents_app, foldl_app in Hc2.
  destruct (foldl_push_new_extends N.eqb (wanted_intents E more)
              (foldl (push_new N.eqb) [] (wanted_intents E listing))) as [extra Hx].
  rewrite Hx in Hc2. by eexists s1, s2, _, extra.
Qed.

End Loading.

(** ** The constructor *)

Section Construction.

Context {W : Type}.
Variable readConfig : JSString -> Res Config.
Variables (env : option JSString) (path : JSString) (w : W).

Lemma constructor_fields (o : Options) (c : Constructed W) :
  constructor readConfig env path w (Some o) = Ok c ->
  clientOptions (instance c) = opt_clientOptions o /\
  mods (instance c) = [] /\ cmdMgr (instance c) = ∅ /\ client (instance c) = None /\
  world (instance c) = w /\ trace (instance c) = [].
Proof.
  unfold constructor.
  destruct (readConfig (default_config_path env path)) as [config|e]; [|discriminate].
  destruct (truthy (opt_config o)).
  - destruct (readConfig (default [] (opt_config o))) as [config'|e]; [|discriminate].
    by intros [= <-].
  - by intros [= <-].
Qed.

(** X14: when the options name a configuration file, the prefix is the
    one of that file, but the token is not: it is the options' token if
    that is a non-empty string and the token of the default file
    otherwise, because the token is read before the named file is. *)
Theorem token_comes_from_the_default_config (o : Options) (config config' : Config) :
  readConfig (default_config_path env path) = Ok config ->
  truthy (opt_config o) = true ->
  readConfig (default [] (opt_config o)) = Ok config' ->
  exists c,
    constructor readConfig env path w (Some o) = Ok c /\
    __token c = (if truthy (opt_token o) then opt_token o else cfg_token config) /\
    config_prefix (instance c) = cfg_prefix config'.
Proof.
  intros Hd Ht Hc. unfold constructor. rewrite Hd, Ht, Hc. by eexists.
Qed.

(** X15: a host constructed without [clientOptions] cannot start: on
    every listing whose enabled mods supply their intents, and when no
    [onInit] handler throws [undefined] or [null], [__init]
    loads and initialises the mods and then throws a [TypeError]; no
    client is created. *)
Theorem host_without_client_options_cannot_start
    (E : Env W) (o : Options) (c : Constructed W) (listing : list JSString) :
  constructor readConfig env path w (Some o) = Ok c ->
  opt_clientOptions o = None ->
  throws_loggable E ->
  supplies_intents E listing = true ->
  exists s' ev,
    __init E listing (instance c)
    = (Throw (TypeError "Cannot read properties of undefined (reading 'intents')"), s') /\
    mods s' = loaded E listing /\ client s' = None /\
    trace s' = ev /\ calls_of ev = concat (init_call E <$> loaded E listing).
Proof.
  intros Hc Ho HE Hs.
  destruct (constructor_fields o c Hc) as (Hco & Hm & _ & Hcl & _ & Ht).
  rewrite Ho in Hco.
  destruct (init_run_no_options E listing (instance c) HE Hs Hco)
    as (s' & ev & Hr & Hm' & _ & Hc' & Ht' & Hcalls & _).
  exists s', ev. rewrite Hm in Hm'. rewrite Ht in Ht'. split_and!; try done.
  by rewrite Hc', Hcl.
Qed.

End Construction.

(** ** The further properties on the concrete host *)

Lemma whitespace_around_command_witness :
  split (trim (replace (js "!") [] (js "!" ++ js "  " ++ js "vm @user" ++ [9; 10])))
  = split (trim (replace (js "!") [] (js "!" ++ js "vm @user"))).
Proof.
  exact (whitespace_around_command_is_ignored (js "!") (js "  ") (js "vm @user") [9; 10]
           eq_refl eq_refl).
Defined.

Lemma handlers_in_turn_witness :
  world (snd (forEach_onMsgCreate demo (text "hello") demo_bot))
  = fst (returns 2 (fst (throws 1 (fst (returns 0 []))))) /\
  world (snd (__onDelete demo (removed "a  b") demo_bot))
  = fst (returns 2 (fst (throws 1 []))) /\
  world (snd (__onUpdate demo (text "a") (text "b") demo_bot))
  = fst (returns 2 (fst (throws 1 []))).
Proof.
  exact (handlers_act_in_turn demo (text "hello") (removed "a  b") (js "a  b")
           (text "a") (text "b") demo_bot demo_throws_loggable eq_refl).
Defined.


Lemma init_without_client_options_witness :
  exists s' ev,
    __init demo demo_listing (new_bot (js "!") None [])
    = (Throw (TypeError "Cannot read properties of undefined (reading 'intents')"), s') /\
    mods s' = [0; 1; 2; 5]%nat /\
    cmdMgr s' = foldl (fun r md => register demo md r) ∅ [0; 1; 2; 5]%nat /\
    client s' = None /\
    trace s' = ev /\ calls_of ev = [CallInit 1; CallInit 2].
Proof.
  exact (init_without_client_options_throws demo demo_listing (new_bot (js "!") None [])
           demo_throws_loggable eq_refl eq_refl).
Defined.

Lemma init_stops_witness :
  exists s' ev,
    __init demo ([js "votemute.js"] ++ js "bare.js" :: [js "audit.js"]) demo_new
    = (Throw (TypeError "Cannot read properties of undefined (reading 'forEach')"), s') /\
    mods s' = [0%nat] /\
    cmdMgr s' = register demo 0%nat ∅ /\
    client s' = None /\ trace s' = ev /\ calls_of ev = [].
Proof.
  exact (init_stops_at_mod_without_intents demo [js "votemute.js"] [js "audit.js"]
           (js "bare.js") demo_new demo_throws_loggable eq_refl eq_refl eq_refl).
Defined.

Lemma second_init_witness :
  exists s1 s2 ev,
    __init demo demo_listing demo_new = (Ok tt, s1) /\
    __init demo demo_listing s1 = (Ok tt, s2) /\
    mods s2 = [0; 1; 2; 5; 0; 1; 2; 5]%nat /\
    client s2 = client s1 /\
    trace s2 = trace s1 ++ ev /\
    calls_of ev = [CallInit 1; CallInit 2].
Proof.
  exact (second_init_lists_every_mod_twice demo demo_listing demo_new
           {| co_intents := Some (IntentFlags []) |} (IntentFlags [])
           demo_throws_loggable eq_refl eq_refl eq_refl).
Defined.


Lemma load_order_witness :
  distinct_mods (mods demo_bot) = mods demo_bot /\
  exists s' ev,
    __onDelete demo (removed "a  b") demo_bot = (Ok tt, s') /\
    trace s' = trace demo_bot ++ ev /\
    calls_of ev = [CallMsgDelete 1 (removed "a  b") [js "a"; js "b"];
                   CallMsgDelete 2 (removed "a  b") [js "a"; js "b"]].
Proof.
  assert (Hnd : NoDup (mods demo_bot)).
  { refine (bool_decide_unpack _ _). vm_compute. exact I. }
  destruct (delete_and_update_follow_load_order demo (removed "a  b") (js "a  b")
              (text "a") (text "b") demo_bot demo_throws_loggable eq_refl Hnd)
    as (Hd & Hdel & _).
  split; [exact Hd|exact Hdel].
Defined.

Lemma more_mods_witness :
  exists s1 s2 requested extra,
    __init demo [js "votemute.js"] demo_new = (Ok tt, s1) /\
    client s1 = Some (IntentFlags requested) /\
    __init demo ([js "votemute.js"] ++ [js "audit.js"; js "volume.js"]) demo_new
    = (Ok tt, s2) /\
    client s2 = Some (IntentFlags (requested ++ extra)).
Proof.
  exact (more_mods_only_append_intents demo [js "votemute.js"]
           [js "audit.js"; js "volume.js"] demo_new
           {| co_intents := Some (IntentFlags []) |}
           demo_throws_loggable eq_refl eq_refl eq_refl).
Defined.

Lemma partial_delete_witness :
  exists s' ev,
    __onDelete demo removed_partial demo_bot = (Ok tt, s') /\
    extends demo_bot s' ev /\ world s' = [] /\ calls_of ev = [] /\
    ev = [Logged LevelError
            (LogModError (js "Audit")
               (TypeError "Cannot read properties of null (reading 'split')"));
          Logged LevelError
            (LogModError (js "Volume")
               (TypeError "Cannot read properties of null (reading 'split')"))].
Proof.
  exact (delete_of_partial_calls_no_handler demo removed_partial demo_bot eq_refl).
Defined.

Lemma token_source_witness :
  exists c,
    constructor demo_readConfig None (js "/srv/bot") ([] : list nat) (Some demo_options)
    = Ok c /\
    __token c = Some (js "default-token") /\
    config_prefix (instance c) = js "?".
Proof.
  exact (token_comes_from_the_default_config demo_readConfig None (js "/srv/bot") []
           demo_options
           {| cfg_token := Some (js "default-token"); cfg_prefix := js "!" |}
           {| cfg_token := Some (js "custom-token"); cfg_prefix := js "?" |}
           eq_refl eq_refl eq_refl).
Defined.

Lemma cannot_start_witness :
  exists s' ev,
    __init demo demo_listing (new_bot (js "?") None [])
    = (Throw (TypeError "Cannot read properties of undefined (reading 'intents')"), s') /\
    mods s' = [0; 1; 2; 5]%nat /\ client s' = None /\
    trace s' = ev /\ calls_of ev = [CallInit 1; CallInit 2].
Proof.
  exact (host_without_client_options_cannot_start demo_readConfig None (js "/srv/bot") []
           demo demo_options
           {| __token := Some (js "default-token"); debug := None;
              instance := new_bot (js "?") None [] |}
           demo_listing eq_refl eq_refl demo_throws_loggable eq_refl).
Defined.
